(** * Grayscale conversion offloaded to an OpenCL device

    A shallow embedding of the three host programs of the repository
    (the BMP variant and the stb_image variant in [src/host.c], the OpenCV
    variant in [src/OpenCL-and-Docker/host.c]) and of the [rgb_to_gray]
    kernel they compile at run time.

    - [CInt]    : the C integer types the code computes with.
    - [F32]     : IEEE-754 binary32 arithmetic, on the Standard Library's
                  [SpecFloat] specification.
    - [Kernel]  : the [rgb_to_gray] kernel and its 2D index space.
    - [Host]    : the host pipelines as processes that emit a trace of
                  observable events and end with an exit status.
    - [BmpFile] : [loadBMP] and [saveBMP] on the bytes of the file.
    - [Steps]   : the data-moving steps read off a trace.
    - [Props]   : the predicates the properties are stated with.
    - [Approx]  : the predicates of the rounding analysis.
    - [Sample]  : concrete images and runtimes.

    The second half of the file states and proves the properties of the
    natural-language specification against these definitions.  Integer
    arithmetic wraps as on the device; the properties of the index
    arithmetic are stated for images whose byte count fits [int], where C
    defines it.  What the OpenCL runtime, [stb_image] and OpenCV do is
    taken from their documentation and kept to what the programs
    observe. *)

From Stdlib Require Import ZArith List Bool Lia Ascii String.
From Stdlib Require Import Floats.SpecFloat.
From stdpp Require Import base list strings pretty.

Open Scope Z_scope.

(* ===================================================================== *)
(** * C integers *)
(* ===================================================================== *)

Module CInt.

Definition INT_MAX : Z := 2147483647.
Definition INT_MIN : Z := -2147483648.

(** [int] and [cl_int] are 32-bit two's-complement integers: a result
    outside the range wraps around. *)
Definition wrap32 (z : Z) : Z := (z + 2 ^ 31) mod 2 ^ 32 - 2 ^ 31.

Definition iadd (a b : Z) : Z := wrap32 (a + b).
Definition imul (a b : Z) : Z := wrap32 (a * b).

(** [err |= e] on [cl_int]. *)
Definition ior (a b : Z) : Z := Z.lor a b.

(** Conversion to [size_t] (64-bit unsigned). *)
Definition to_size_t (z : Z) : Z := z mod 2 ^ 64.

(** The value of an [int] fits its type. *)
Definition fits_int (z : Z) : Prop := INT_MIN <= z <= INT_MAX.

End CInt.

(* ===================================================================== *)
(** * Single-precision floating point *)
(* ===================================================================== *)

Module F32.

(** binary32: 24 bits of precision, exponents below 128. *)
Definition prec : Z := 24.
Definition emax : Z := 128.

Definition float : Type := spec_float.

(** Conversion of an integer to [float]; exact below [2^24]. *)
Definition of_int (z : Z) : float := binary_normalize prec emax z 0 false.

(** A decimal literal [num/den] with suffix [f]: the binary32 number
    nearest to the quotient. *)
Definition literal (num den : Z) : float :=
  SFdiv prec emax (of_int num) (of_int den).

Definition mul : float -> float -> float := SFmul prec emax.
Definition add : float -> float -> float := SFadd prec emax.

(** Fused multiply-add [x * y + z] with a single rounding.  The device
    compiler may contract a product and a sum into it ([FP_CONTRACT] is
    on by default in OpenCL C). *)
Definition fma (x y z : float) : float :=
  match x, y, z with
  | S754_finite sx mx ex, S754_finite sy my ey, S754_finite sz mz ez =>
      let exy := ex + ey in
      let e := Z.min exy ez in
      binary_normalize prec emax
        (cond_Zopp (xorb sx sy) (Zpos (fst (shl_align (mx * my) exy e)))
         + cond_Zopp sz (Zpos (fst (shl_align mz ez e))))
        e false
  | _, _, _ => add (mul x y) z
  end.

(** Truncation toward zero of a finite number. *)
Definition trunc (f : float) : option Z :=
  match f with
  | S754_zero _ => Some 0
  | S754_finite s m e =>
      Some (cond_Zopp s (if 0 <=? e then Zpos m * 2 ^ e else Zpos m / 2 ^ (- e)))
  | S754_infinity _ | S754_nan => None
  end.

(** The cast [(uchar) f]: the fractional part is discarded; the result is
    undefined when the truncated value is not a [uchar]. *)
Definition to_uchar (f : float) : option Z :=
  match trunc f with
  | Some z => if (0 <=? z) && (z <=? 255) then Some z else None
  | None => None
  end.

(** Which sums of the expression [a*r + b*g + c*bl] the compiler fuses
    with one of their products. *)
Inductive inner_fusion : Type :=
| inner_separate        (* a*r and b*g both rounded, then added *)
| inner_fuse_left       (* fma(a, r, b*g) *)
| inner_fuse_right.     (* fma(b, g, a*r) *)

Record fp_contract : Type := FpContract {
  inner : inner_fusion;
  outer_fused : bool      (* fma(c, bl, a*r + b*g) *)
}.

Definition no_contraction : fp_contract := FpContract inner_separate false.

Definition all_contractions : list fp_contract :=
  [ FpContract inner_separate false; FpContract inner_separate true;
    FpContract inner_fuse_left false; FpContract inner_fuse_left true;
    FpContract inner_fuse_right false; FpContract inner_fuse_right true ].

End F32.

(* ===================================================================== *)
(** * The kernel *)
(* ===================================================================== *)

Module Kernel.
Import CInt.

(** A [__global uchar *] buffer is the list of its bytes. *)
Abbreviation buffer := (list Z) (only parsing).

(** [buf[i]]: an access outside the buffer is undefined. *)
Definition load (buf : buffer) (i : Z) : option Z :=
  if i <? 0 then None else buf !! Z.to_nat i.

(** [buf[i] = v]. *)
Definition store (buf : buffer) (i : Z) (v : Z) : option buffer :=
  if (0 <=? i) && (i <? Z.of_nat (length buf))
  then Some (<[Z.to_nat i := v]> buf)
  else None.

Definition c_0_299 : F32.float := F32.literal 299 1000.
Definition c_0_587 : F32.float := F32.literal 587 1000.
Definition c_0_114 : F32.float := F32.literal 114 1000.

(** [0.299f * red + 0.587f * green + 0.114f * blue], the [uchar]
    operands promoted to [float]. *)
Definition gray_value (fc : F32.fp_contract)
    (red green blue : Z) : F32.float :=
  let r := F32.of_int red in
  let g := F32.of_int green in
  let b := F32.of_int blue in
  let s :=
    match F32.inner fc with
    | F32.inner_separate =>
        F32.add (F32.mul c_0_299 r) (F32.mul c_0_587 g)
    | F32.inner_fuse_left => F32.fma c_0_299 r (F32.mul c_0_587 g)
    | F32.inner_fuse_right => F32.fma c_0_587 g (F32.mul c_0_299 r)
    end in
  if F32.outer_fused fc
  then F32.fma c_0_114 b s
  else F32.add s (F32.mul c_0_114 b).

(** [uchar gray = (uchar)(...)]. *)
Definition luma (fc : F32.fp_contract) (red green blue : Z) : option Z :=
  F32.to_uchar (gray_value fc red green blue).

(** [int idx = (y * width + x) * channels;] *)
Definition pixel_index (x y width channels : Z) : Z :=
  imul (iadd (imul y width) x) channels.

(** [int gray_idx = y * width + x;] *)
Definition gray_index (x y width : Z) : Z :=
  iadd (imul y width) x.

(** One work-item of [rgb_to_gray] with global id [(gid0, gid1)]: the
    output buffer after it ran, or [None] when it accessed memory outside
    a buffer.  The kernel text is the same in the three programs up to
    the names of its locals. *)
Definition rgb_to_gray (fc : F32.fp_contract)
    (input output : buffer) (width height channels : Z)
    (gid0 gid1 : Z) : option buffer :=
  let x := wrap32 gid0 in
  let y := wrap32 gid1 in
  let idx := pixel_index x y width channels in
  blue ← load input idx;
  green ← load input (iadd idx 1);
  red ← load input (iadd idx 2);
  gray ← luma fc red green blue;
  store output (gray_index x y width) gray.

(** The global ids of a 2D index space of [gx] by [gy] work-items.  The
    runtime fixes no order; the row-major one is taken here. *)
Definition work_items (gx gy : Z) : list (Z * Z) :=
  y ← seqZ 0 gy; x ← seqZ 0 gx; [(x, y)].

(** Running the kernel over a list of work-items. *)
Definition run_items (fc : F32.fp_contract)
    (input : buffer) (width height channels : Z)
    (items : list (Z * Z)) (output : buffer) : option buffer :=
  foldl (fun acc id => out ← acc;
           rgb_to_gray fc input out width height channels id.1 id.2)
        (Some output) items.

(** [clEnqueueNDRangeKernel] with [work_dim = 2] and the given global
    size, followed to completion. *)
Definition run_ndrange (fc : F32.fp_contract)
    (input output : buffer) (width height channels : Z)
    (gx gy : Z) : option buffer :=
  run_items fc input width height channels (work_items gx gy) output.

End Kernel.

(* ===================================================================== *)
(** * The host programs *)
(* ===================================================================== *)

Module Host.
Import CInt.

(** ** Observable behaviour *)

Inductive buffer_id : Type := InputBuffer | OutputBuffer.

(** The device-side objects a run creates. *)
Inductive resource : Type :=
| Context
| Queue
| Program
| Buffer (b : buffer_id)
| KernelObject.

Inductive event : Type :=
| Stderr (text : string)
| Stdout (text : string)
| Create (r : resource)                 (* clCreateContext, ... *)
| Allocate (b : buffer_id) (size : Z)   (* clCreateBuffer *)
| Release (r : resource)                (* clRelease... *)
| WriteBuffer (size : Z)                (* blocking upload *)
| NDRange (work_dim : Z) (global : list Z) (local : option (list Z))
| ReadBuffer (size : Z)                 (* blocking readback *)
| WriteFile (name : string) (pixels : option Kernel.buffer).

(** A process either returns a value or leaves through [exit]. *)
Inductive outcome (A : Type) : Type :=
| Return (a : A)
| Exited (status : Z).
Arguments Return {A} a.
Arguments Exited {A} status.

Definition proc (A : Type) : Type := (list event * outcome A)%type.

#[global] Instance proc_ret : MRet proc := fun A a => ([], Return a).

#[global] Instance proc_bind : MBind proc := fun A B k m =>
  match m with
  | (t, Return a) => let '(t', o) := k a in (t ++ t', o)
  | (t, Exited s) => (t, Exited s)
  end.

Definition emit (e : event) : proc unit := ([e], Return tt).
Definition exit {A : Type} (status : Z) : proc A := ([], Exited status).

(** What the operating system sees of [main]. *)
Definition trace {A : Type} (p : proc A) : list event := p.1.
Definition exit_status (p : proc Z) : Z :=
  match p.2 with Return s => s | Exited s => s end.

Definition nl : string := String (ascii_of_nat 10) EmptyString.

(** ** The OpenCL runtime *)

Definition CL_SUCCESS : Z := 0.
Definition CL_DEVICE_NOT_FOUND : Z := -1.
Definition CL_INVALID_VALUE : Z := -30.
Definition CL_INVALID_MEM_OBJECT : Z := -38.

(** The status each API call of a run reports, the build log the device
    compiler leaves, the bytes found in freshly allocated device memory
    and the contraction the device compiler applies. *)
Record cl_runtime : Type := {
  platform_status : Z;
  device_status : Z;
  context_status : Z;
  queue_status : Z;
  program_status : Z;
  build_status : Z;
  build_log : string;
  input_buffer_status : Z;
  output_buffer_status : Z;
  write_status : Z;
  kernel_status : Z;
  arg_status : Z -> Z;
  ndrange_status : Z;
  read_status : Z;
  uninitialised : nat -> Z;
  contraction : F32.fp_contract
}.

Record environment : Type := {
  runtime : cl_runtime;
  output_writable : bool      (* the output file can be opened *)
}.

(** A [clCreate...] call: the object exists iff the status is
    [CL_SUCCESS]. *)
Definition create (r : resource) (status : Z) : proc Z :=
  (if status =? CL_SUCCESS then [Create r] else [], Return status).

(** [clCreateBuffer]: the handle is [NULL] unless the status is
    [CL_SUCCESS]; a valid handle is modelled by the size of its buffer. *)
Definition clCreateBuffer (b : buffer_id) (size status : Z)
  : proc (option Z * Z) :=
  if status =? CL_SUCCESS
  then ([Allocate b size], Return (Some size, status))
  else ([], Return (None, status)).

(** [clEnqueueWriteBuffer] and [clEnqueueReadBuffer] reject a handle that
    is not a buffer and a region that exceeds the buffer. *)
Definition clEnqueueWriteBuffer (rt : cl_runtime)
    (buf : option Z) (size : Z) : proc Z :=
  match buf with
  | None => mret CL_INVALID_MEM_OBJECT
  | Some capacity =>
      if capacity <? size then mret CL_INVALID_VALUE
      else if write_status rt =? CL_SUCCESS
           then ([WriteBuffer size], Return CL_SUCCESS)
           else mret (write_status rt)
  end.

Definition clEnqueueReadBuffer (rt : cl_runtime)
    (buf : option Z) (size : Z) : proc Z :=
  match buf with
  | None => mret CL_INVALID_MEM_OBJECT
  | Some capacity =>
      if capacity <? size then mret CL_INVALID_VALUE
      else if read_status rt =? CL_SUCCESS
           then ([ReadBuffer size], Return CL_SUCCESS)
           else mret (read_status rt)
  end.

Definition clEnqueueNDRangeKernel (rt : cl_runtime)
    (work_dim : Z) (global : list Z) (local : option (list Z)) : proc Z :=
  if ndrange_status rt =? CL_SUCCESS
  then ([NDRange work_dim global local], Return CL_SUCCESS)
  else mret (ndrange_status rt).

(** The five [clSetKernelArg] calls, their codes accumulated with [|=]. *)
Definition bind_status (e0 e1 e2 e3 e4 : Z) : Z :=
  ior (ior (ior (ior e0 e1) e2) e3) e4.

Definition set_kernel_args (rt : cl_runtime) : Z :=
  bind_status (arg_status rt 0) (arg_status rt 1) (arg_status rt 2)
              (arg_status rt 3) (arg_status rt 4).

Definition release (rs : list resource) : proc unit :=
  (Release <$> rs, Return tt).

(** The bytes a buffer of the given size holds when it is created. *)
Definition fresh_buffer (rt : cl_runtime) (size : Z) : Kernel.buffer :=
  uninitialised rt <$> seq 0 (Z.to_nat size).

(** The first [size] bytes of the output buffer after the kernel ran over
    the launched index space: what the readback copies to the host. *)
Definition device_output (rt : cl_runtime)
    (staged : Kernel.buffer) (input_size output_size : Z)
    (width height channels : Z) (read_size : Z) : option Kernel.buffer :=
  out ← Kernel.run_ndrange (contraction rt)
          (take (Z.to_nat input_size) staged)
          (fresh_buffer rt output_size)
          width height channels (to_size_t width) (to_size_t height);
  Some (take (Z.to_nat read_size) out).

(** ** Error reporting *)

Definition error_line (label : string) (message : string) (err : Z)
  : string :=
  "Error: " +:+ message +:+ " (" +:+ label +:+ " code: "
    +:+ pretty err +:+ ")" +:+ nl.

(** [checkError] of [src/host.c] (both programs). *)
Definition checkError (err : Z) (message : string) : proc unit :=
  if err =? CL_SUCCESS then mret tt
  else emit (Stderr (error_line "Error" message err));; exit 1.

(** [checkError] of [src/OpenCL-and-Docker/host.c]. *)
Definition checkError_docker (err : Z) (message : string) : proc unit :=
  if err =? CL_SUCCESS then mret tt
  else emit (Stderr (error_line "error" message err));; exit 1.

(** [fprintf(stderr, "Build log:\n%s\n", log)]. *)
Definition build_log_text (log : string) : string :=
  "Build log:" +:+ nl +:+ log +:+ nl.

(** [clBuildProgram] and the report of its failure. *)
Definition build_program (check : Z -> string -> proc unit)
    (rt : cl_runtime) : proc unit :=
  let err := build_status rt in
  if err =? CL_SUCCESS then mret tt
  else
    let log := build_log rt in          (* clGetProgramBuildInfo, twice *)
    emit (Stderr (build_log_text log));;
    check err "Building program".

Definition success_line : string :=
  "Grayscale image has been generated." +:+ nl.

(** ** BMP program ([src/host.c], first file) *)

Record BMPInfoHeader : Type := {
  biWidth : Z;
  biHeight : Z;
  biBitCount : Z;
  biSizeImage : Z
}.

(** What [loadBMP] reads of a file: the magic bytes, the info header and
    the [biSizeImage] bytes at [bfOffBits]. *)
Record bmp_file : Type := {
  bfType : Z * Z;
  info : BMPInfoHeader;
  pixel_array : Kernel.buffer
}.

Definition loadBMP (filename : string) (file : option bmp_file)
  : proc (Kernel.buffer * BMPInfoHeader) :=
  match file with
  | None =>
      emit (Stderr ("Error: Unable to open file " +:+ filename +:+ "."
                    +:+ nl));;
      exit 1
  | Some f =>
      if negb ((bfType f).1 =? 66) || negb ((bfType f).2 =? 77)
      then emit (Stderr ("Error: Not a BMP file." +:+ nl));; exit 1
      else mret (pixel_array f, info f)
  end.

(** [saveBMP]: the header is written back unchanged, followed by the
    buffer it is handed. *)
Definition saveBMP (filename : string) (imageData : option Kernel.buffer)
    (writable : bool) : proc unit :=
  if writable then emit (WriteFile filename imageData)
  else
    emit (Stderr ("Error: Unable to open file " +:+ filename
                  +:+ " for writing." +:+ nl));;
    exit 1.

Definition main_bmp (file : option bmp_file) (env : environment)
  : proc Z :=
  let rt := runtime env in
  '(imageData, bmpInfoHeader) ← loadBMP "image.bmp" file;
  let width := biWidth bmpInfoHeader in
  let height := biHeight bmpInfoHeader in
  let channels := biBitCount bmpInfoHeader / 8 in
  checkError (platform_status rt) "Getting platform";;
  checkError (device_status rt) "Getting device";;
  err ← create Context (context_status rt);
  checkError err "Creating context";;
  err ← create Queue (queue_status rt);
  checkError err "Creating command queue";;
  err ← create Program (program_status rt);
  checkError err "Creating program";;
  build_program checkError rt;;
  let input_size := biSizeImage bmpInfoHeader in
  '(inputBuffer, err) ←
    clCreateBuffer InputBuffer input_size (input_buffer_status rt);
  checkError err "Creating input buffer";;
  let output_size := to_size_t (imul width height) in
  '(outputBuffer, err) ←
    clCreateBuffer OutputBuffer output_size (output_buffer_status rt);
  checkError err "Creating output buffer";;
  err ← clEnqueueWriteBuffer rt inputBuffer input_size;
  checkError err "Writing to input buffer";;
  err ← create KernelObject (kernel_status rt);
  checkError err "Creating kernel";;
  checkError (set_kernel_args rt) "Setting kernel arguments";;
  err ← clEnqueueNDRangeKernel rt 2
          [to_size_t width; to_size_t height] None;
  checkError err "Executing kernel";;
  let read_size := to_size_t (imul width height) in
  err ← clEnqueueReadBuffer rt outputBuffer read_size;
  checkError err "Reading from output buffer";;
  let grayImage :=
    device_output rt imageData input_size output_size
                  width height channels read_size in
  saveBMP "gray_image.bmp" grayImage (output_writable env);;
  release [KernelObject; Program; Buffer InputBuffer; Buffer OutputBuffer;
           Queue; Context];;
  emit (Stdout success_line);;
  mret 0.

(** ** stb_image program ([src/host.c], second file) *)

(** What [stbi_load] returns for a file it can decode when three
    components are requested: the dimensions, the number of components
    the file has, and [x * y * 3] bytes. *)
Record stb_image : Type := {
  stb_x : Z;
  stb_y : Z;
  channels_in_file : Z;
  stb_data : Kernel.buffer
}.

(** [stbi_write_jpg], whose result the program does not look at. *)
Definition stbi_write_jpg (filename : string)
    (data : option Kernel.buffer) (writable : bool) : proc unit :=
  if writable then emit (WriteFile filename data) else mret tt.

Definition main_stb (file : option stb_image) (env : environment)
  : proc Z :=
  let rt := runtime env in
  match file with
  | None =>
      emit (Stderr ("Error: Could not load JPG image." +:+ nl));;
      mret (-1)
  | Some img =>
      let width := stb_x img in
      let height := stb_y img in
      let channels := channels_in_file img in
      let colorImage := stb_data img in
      checkError (platform_status rt) "Getting platform";;
      checkError (device_status rt) "Getting device";;
      err ← create Context (context_status rt);
      checkError err "Creating context";;
      err ← create Queue (queue_status rt);
      checkError err "Creating command queue";;
      err ← create Program (program_status rt);
      checkError err "Creating program";;
      build_program checkError rt;;
      let input_size := to_size_t (imul (imul width height) channels) in
      '(inputBuffer, err) ←
        clCreateBuffer InputBuffer input_size (input_buffer_status rt);
      let output_size := to_size_t (imul width height) in
      '(outputBuffer, err) ←
        clCreateBuffer OutputBuffer output_size (output_buffer_status rt);
      checkError err "Creating buffers";;
      err ← clEnqueueWriteBuffer rt inputBuffer input_size;
      checkError err "Writing to input buffer";;
      err ← create KernelObject (kernel_status rt);
      checkError err "Creating kernel";;
      checkError (set_kernel_args rt) "Setting kernel arguments";;
      err ← clEnqueueNDRangeKernel rt 2
              [to_size_t width; to_size_t height] None;
      checkError err "Enqueueing NDRange kernel";;
      let read_size := to_size_t (imul width height) in
      err ← clEnqueueReadBuffer rt outputBuffer read_size;
      checkError err "Reading from output buffer";;
      let grayImage :=
        device_output rt colorImage input_size output_size
                      width height channels read_size in
      stbi_write_jpg "gray_image.jpg" grayImage (output_writable env);;
      release [KernelObject; Program; Buffer InputBuffer;
               Buffer OutputBuffer; Queue; Context];;
      emit (Stdout success_line);;
      mret 0
  end.

(** ** OpenCV program ([src/OpenCL-and-Docker/host.c]) *)

(** An 8-bit [cv::Mat]: [total()] counts the elements (pixels),
    [elemSize()] the bytes of one element. *)
Record Mat : Type := {
  cols : Z;
  rows : Z;
  mat_channels : Z;
  mat_data : Kernel.buffer
}.

Definition total (m : Mat) : Z := to_size_t (rows m * cols m).
Definition elemSize (m : Mat) : Z := mat_channels m.

(** [cv::imwrite], whose result the program does not look at. *)
Definition imwrite (filename : string)
    (data : option Kernel.buffer) (writable : bool) : proc unit :=
  if writable then emit (WriteFile filename data) else mret tt.

Definition main_ocv (file : option Mat) (env : environment) : proc Z :=
  let rt := runtime env in
  match file with
  | None =>
      emit (Stderr ("Error: Could not load image." +:+ nl));;
      mret (-1)
  | Some colorImage =>
      let width := cols colorImage in
      let height := rows colorImage in
      let channels := mat_channels colorImage in
      checkError_docker (platform_status rt) "Getting platform";;
      checkError_docker (device_status rt) "Getting device";;
      err ← create Context (context_status rt);
      checkError_docker err "Creating context";;
      err ← create Queue (queue_status rt);
      checkError_docker err "Creating command queue";;
      err ← create Program (program_status rt);
      checkError_docker err "Creating program";;
      build_program checkError_docker rt;;
      let input_size :=
        to_size_t (total colorImage * elemSize colorImage) in
      '(inputBuffer, err) ←
        clCreateBuffer InputBuffer input_size (input_buffer_status rt);
      let output_size := total colorImage / to_size_t channels in
      '(outputBuffer, err) ←
        clCreateBuffer OutputBuffer output_size (output_buffer_status rt);
      checkError_docker err "Creating buffers";;
      err ← clEnqueueWriteBuffer rt inputBuffer input_size;
      checkError_docker err "Writing to input buffer";;
      err ← create KernelObject (kernel_status rt);
      checkError_docker err "Creating kernel";;
      checkError_docker (set_kernel_args rt) "Setting kernel arguments";;
      err ← clEnqueueNDRangeKernel rt 2
              [to_size_t width; to_size_t height] None;
      checkError_docker err "Enqueueing NDRange kernel";;
      (* cv::Mat grayImage(height, width, CV_8UC1) *)
      let read_size := to_size_t (height * width) in
      err ← clEnqueueReadBuffer rt outputBuffer read_size;
      checkError_docker err "Reading from output buffer";;
      let grayImage :=
        device_output rt (mat_data colorImage) input_size output_size
                      width height channels read_size in
      imwrite "gray_image.jpg" grayImage (output_writable env);;
      release [KernelObject; Program; Buffer InputBuffer;
               Buffer OutputBuffer; Queue; Context];;
      emit (Stdout success_line);;
      mret 0
  end.

(** ** The three programs together *)

Inductive variant : Type := BMP | STB | OCV.

(** A program of the repository with the image file it finds ([None]
    when the loader cannot read it). *)
Inductive program : Type :=
| run_bmp (file : option bmp_file)
| run_stb (file : option stb_image)
| run_ocv (file : option Mat).

Definition variant_of (p : program) : variant :=
  match p with run_bmp _ => BMP | run_stb _ => STB | run_ocv _ => OCV end.

Definition main (p : program) (env : environment) : proc Z :=
  match p with
  | run_bmp f => main_bmp f env
  | run_stb f => main_stb f env
  | run_ocv f => main_ocv f env
  end.

(** ** Reading a trace *)

Definition created (t : list event) : list resource :=
  e ← t; match e with
         | Create r => [r]
         | Allocate b _ => [Buffer b]
         | _ => []
         end.

Definition released (t : list event) : list resource :=
  e ← t; match e with Release r => [r] | _ => [] end.

Definition stderr_of (t : list event) : list string :=
  e ← t; match e with Stderr s => [s] | _ => [] end.

Definition stdout_of (t : list event) : list string :=
  e ← t; match e with Stdout s => [s] | _ => [] end.

Definition files_of (t : list event) : list string :=
  e ← t; match e with WriteFile n _ => [n] | _ => [] end.

Definition launches (t : list event)
  : list (Z * list Z * option (list Z)) :=
  e ← t; match e with NDRange d g l => [(d, g, l)] | _ => [] end.

Definition output_allocations (t : list event) : list Z :=
  e ← t; match e with Allocate OutputBuffer n => [n] | _ => [] end.

Definition readbacks (t : list event) : list Z :=
  e ← t; match e with ReadBuffer n => [n] | _ => [] end.

Definition written_images (t : list event)
  : list (option Kernel.buffer) :=
  e ← t; match e with WriteFile _ d => [d] | _ => [] end.

(** A process with events put in front of its trace. *)
Definition prefixed {A : Type} (t : list event) (p : proc A) : proc A :=
  (t ++ p.1, p.2).

End Host.

(* ===================================================================== *)
(** * The bitmap file, byte by byte *)
(* ===================================================================== *)

Module BmpFile.
Import CInt Host.

(** The object representation of an integer of [n] bytes on a
    little-endian machine (two's complement for a negative one), and the
    unsigned value of such a representation. *)
Fixpoint le_bytes (n : nat) (z : Z) : list Z :=
  match n with
  | O => []
  | S n' => z mod 256 :: le_bytes n' (z / 256)
  end.

Fixpoint le_value (bs : list Z) : Z :=
  match bs with
  | [] => 0
  | b :: bs' => b + 256 * le_value bs'
  end.

(** The two structs, packed ([#pragma pack(push, 1)]). *)
Record BMPHeader : Type := {
  bfType : Z * Z;
  bfSize : Z;
  bfReserved1 : Z;
  bfReserved2 : Z;
  bfOffBits : Z
}.

Record BMPInfoHeader : Type := {
  biSize : Z;
  biWidth : Z;
  biHeight : Z;
  biPlanes : Z;
  biBitCount : Z;
  biCompression : Z;
  biSizeImage : Z;
  biXPelsPerMeter : Z;
  biYPelsPerMeter : Z;
  biClrUsed : Z;
  biClrImportant : Z
}.

Definition sizeof_BMPHeader : nat := 14.
Definition sizeof_BMPInfoHeader : nat := 40.

(** The bytes of a struct in memory. *)
Definition header_bytes (h : BMPHeader) : list Z :=
  [(bfType h).1; (bfType h).2]
  ++ le_bytes 4 (bfSize h)
  ++ le_bytes 2 (bfReserved1 h)
  ++ le_bytes 2 (bfReserved2 h)
  ++ le_bytes 4 (bfOffBits h).

Definition info_bytes (i : BMPInfoHeader) : list Z :=
  le_bytes 4 (biSize i)
  ++ le_bytes 4 (biWidth i)
  ++ le_bytes 4 (biHeight i)
  ++ le_bytes 2 (biPlanes i)
  ++ le_bytes 2 (biBitCount i)
  ++ le_bytes 4 (biCompression i)
  ++ le_bytes 4 (biSizeImage i)
  ++ le_bytes 4 (biXPelsPerMeter i)
  ++ le_bytes 4 (biYPelsPerMeter i)
  ++ le_bytes 4 (biClrUsed i)
  ++ le_bytes 4 (biClrImportant i).

(** The members of a struct whose memory holds the bytes [mem]. *)
Definition unsigned_at (mem : list Z) (offset size : nat) : Z :=
  le_value (take size (drop offset mem)).

Definition int_at (mem : list Z) (offset : nat) : Z :=
  wrap32 (unsigned_at mem offset 4).

Definition header_of (mem : list Z) : BMPHeader := {|
  bfType := (unsigned_at mem 0 1, unsigned_at mem 1 1);
  bfSize := unsigned_at mem 2 4;
  bfReserved1 := unsigned_at mem 6 2;
  bfReserved2 := unsigned_at mem 8 2;
  bfOffBits := unsigned_at mem 10 4
|}.

Definition info_of (mem : list Z) : BMPInfoHeader := {|
  biSize := unsigned_at mem 0 4;
  biWidth := int_at mem 4;
  biHeight := int_at mem 8;
  biPlanes := unsigned_at mem 12 2;
  biBitCount := unsigned_at mem 14 2;
  biCompression := unsigned_at mem 16 4;
  biSizeImage := unsigned_at mem 20 4;
  biXPelsPerMeter := int_at mem 24;
  biYPelsPerMeter := int_at mem 28;
  biClrUsed := unsigned_at mem 32 4;
  biClrImportant := unsigned_at mem 36 4
|}.

(** The indeterminate bytes of the memory [loadBMP] reads into: its local
    header, the info header of [main], and the block [malloc] returns. *)
Record indeterminate : Type := {
  stack_header : nat -> Z;
  stack_info : nat -> Z;
  heap : nat -> Z
}.

Definition memory (junk : nat -> Z) (size : nat) : list Z :=
  junk <$> seq 0 size.

(** [fread(ptr, size, 1, file)], whose result is not looked at: the
    bytes the file still has, [size] at most, are stored at [ptr].  When
    the file has them all the memory is determined; of a partial read
    the bytes read are taken as stored and the rest as left. *)
Definition fread (ptr : list Z) (size : nat) (rest : list Z) : list Z :=
  take size rest ++ drop (length (take size rest)) ptr.

(** [loadBMP] on the bytes of the file ([None] when it cannot be
    opened). *)
Definition loadBMP (filename : string) (file : option (list Z))
    (m : indeterminate) : proc (Kernel.buffer * BMPInfoHeader) :=
  match file with
  | None =>
      emit (Stderr ("Error: Unable to open file " +:+ filename +:+ "."
                    +:+ nl));;
      exit 1
  | Some bytes =>
      let bmpHeader :=
        header_of (fread (memory (stack_header m) sizeof_BMPHeader)
                         sizeof_BMPHeader bytes) in
      let bmpInfoHeader :=
        info_of (fread (memory (stack_info m) sizeof_BMPInfoHeader)
                       sizeof_BMPInfoHeader
                       (drop sizeof_BMPHeader bytes)) in
      if negb ((bfType bmpHeader).1 =? 66)
         || negb ((bfType bmpHeader).2 =? 77)
      then emit (Stderr ("Error: Not a BMP file." +:+ nl));; exit 1
      else
        let dataSize := Z.to_nat (biSizeImage bmpInfoHeader) in
        let imageData :=
          fread (memory (heap m) dataSize) dataSize
                (drop (Z.to_nat (bfOffBits bmpHeader)) bytes) in
        mret (imageData, bmpInfoHeader)
  end.

(** The header [saveBMP] builds. *)
Definition saved_header (bmpInfoHeader : BMPInfoHeader) : BMPHeader := {|
  bfType := (66, 77);
  bfSize :=
    (Z.of_nat sizeof_BMPHeader + Z.of_nat sizeof_BMPInfoHeader
     + biSizeImage bmpInfoHeader) mod 2 ^ 32;
  bfReserved1 := 0;
  bfReserved2 := 0;
  bfOffBits :=
    (Z.of_nat sizeof_BMPHeader + Z.of_nat sizeof_BMPInfoHeader) mod 2 ^ 32
|}.

(** [fwrite(ptr, size, 1, file)]: reading [size] bytes from a block that
    has fewer is undefined. *)
Definition fwrite (ptr : list Z) (size : nat) : option (list Z) :=
  if (size <=? length ptr)%nat then Some (take size ptr) else None.

(** The bytes [saveBMP] writes to the file it opened. *)
Definition saved_bytes (imageData : list Z) (bmpInfoHeader : BMPInfoHeader)
  : option (list Z) :=
  data ← fwrite imageData (Z.to_nat (biSizeImage bmpInfoHeader));
  Some (header_bytes (saved_header bmpInfoHeader)
        ++ info_bytes bmpInfoHeader ++ data).

(** [saveBMP], given whether the file can be opened for writing. *)
Definition saveBMP (filename : string) (imageData : list Z)
    (bmpInfoHeader : BMPInfoHeader) (writable : bool) : proc unit :=
  if writable
  then emit (WriteFile filename (saved_bytes imageData bmpInfoHeader))
  else
    emit (Stderr ("Error: Unable to open file " +:+ filename
                  +:+ " for writing." +:+ nl));;
    exit 1.

(** The members of a header are in the range of their C types. *)
Definition in_range (i : BMPInfoHeader) : Prop :=
  0 <= biSize i < 2 ^ 32
  /\ fits_int (biWidth i) /\ fits_int (biHeight i)
  /\ 0 <= biPlanes i < 2 ^ 16 /\ 0 <= biBitCount i < 2 ^ 16
  /\ 0 <= biCompression i < 2 ^ 32 /\ 0 <= biSizeImage i < 2 ^ 32
  /\ fits_int (biXPelsPerMeter i) /\ fits_int (biYPelsPerMeter i)
  /\ 0 <= biClrUsed i < 2 ^ 32 /\ 0 <= biClrImportant i < 2 ^ 32.

(** The four members [main] looks at. *)
Definition used_by_main (i : BMPInfoHeader) : Host.BMPInfoHeader := {|
  Host.biWidth := biWidth i;
  Host.biHeight := biHeight i;
  Host.biBitCount := biBitCount i;
  Host.biSizeImage := biSizeImage i
|}.

(** What [main] sees of a file it could open: the magic bytes, the four
    members and the buffer. *)
Definition view (bytes : list Z) (m : indeterminate) : Host.bmp_file :=
  let bmpHeader :=
    header_of (fread (memory (stack_header m) sizeof_BMPHeader)
                     sizeof_BMPHeader bytes) in
  let bmpInfoHeader :=
    info_of (fread (memory (stack_info m) sizeof_BMPInfoHeader)
                   sizeof_BMPInfoHeader
                   (drop sizeof_BMPHeader bytes)) in
  let dataSize := Z.to_nat (biSizeImage bmpInfoHeader) in
  {| Host.bfType := bfType bmpHeader;
     Host.info := used_by_main bmpInfoHeader;
     Host.pixel_array :=
       fread (memory (heap m) dataSize) dataSize
             (drop (Z.to_nat (bfOffBits bmpHeader)) bytes) |}.

(** The header of a 24-bit bitmap of the given size, its rows padded to
    a multiple of four bytes. *)
Definition header_24 (width height : Z) : BMPInfoHeader := {|
  biSize := 40; biWidth := width; biHeight := height; biPlanes := 1;
  biBitCount := 24; biCompression := 0;
  biSizeImage := (width * 3 + 3) / 4 * 4 * height;
  biXPelsPerMeter := 2835; biYPelsPerMeter := 2835;
  biClrUsed := 0; biClrImportant := 0
|}.

End BmpFile.

(* ===================================================================== *)
(** * The steps of a run *)
(* ===================================================================== *)

Module Steps.
Import Host.

(** The data-moving steps of the pipeline. *)
Inductive step : Type := Upload | Launch | Readback | Save.

Definition steps (t : list event) : list step :=
  e ← t; match e with
         | WriteBuffer _ => [Upload]
         | NDRange _ _ _ => [Launch]
         | ReadBuffer _ => [Readback]
         | WriteFile _ _ => [Save]
         | _ => []
         end.

Definition input_allocations (t : list event) : list Z :=
  e ← t; match e with Allocate InputBuffer n => [n] | _ => [] end.

Definition uploads (t : list event) : list Z :=
  e ← t; match e with WriteBuffer n => [n] | _ => [] end.

End Steps.

(* ===================================================================== *)
(** * Vocabulary of the properties *)
(* ===================================================================== *)

Module Props.
Import Host CInt.

(** The image file was read: the pipeline proper starts. *)
Definition loaded (p : program) : Prop :=
  match p with
  | run_bmp (Some f) => (bfType f).1 = 66 /\ (bfType f).2 = 77
  | run_stb (Some _) | run_ocv (Some _) => True
  | _ => False
  end.

(** Width, height and channel count the program passes to the kernel. *)
Definition geometry (p : program) : option (Z * Z * Z) :=
  match p with
  | run_bmp (Some f) =>
      Some (biWidth (info f), biHeight (info f),
            biBitCount (info f) / 8)
  | run_stb (Some img) =>
      Some (stb_x img, stb_y img, channels_in_file img)
  | run_ocv (Some m) => Some (cols m, rows m, mat_channels m)
  | _ => None
  end.

(** The pixel bytes the loader hands to the program. *)
Definition staged (p : program) : Kernel.buffer :=
  match p with
  | run_bmp (Some f) => pixel_array f
  | run_stb (Some img) => stb_data img
  | run_ocv (Some m) => mat_data m
  | _ => []
  end.



(** Some step of the pipeline reports an error. *)
Definition pipeline_failure (rt : cl_runtime) : Prop :=
  platform_status rt <> 0 \/ device_status rt <> 0
  \/ context_status rt <> 0 \/ queue_status rt <> 0
  \/ program_status rt <> 0 \/ build_status rt <> 0
  \/ input_buffer_status rt <> 0 \/ output_buffer_status rt <> 0
  \/ write_status rt <> 0 \/ kernel_status rt <> 0
  \/ set_kernel_args rt <> 0 \/ ndrange_status rt <> 0
  \/ read_status rt <> 0.

(** The steps before [clBuildProgram] succeed. *)
Definition reaches_build (rt : cl_runtime) : Prop :=
  platform_status rt = 0 /\ device_status rt = 0
  /\ context_status rt = 0 /\ queue_status rt = 0
  /\ program_status rt = 0.

(** The steps before the [clSetKernelArg] calls succeed. *)
Definition reaches_bind (rt : cl_runtime) : Prop :=
  reaches_build rt /\ build_status rt = 0
  /\ input_buffer_status rt = 0 /\ output_buffer_status rt = 0
  /\ write_status rt = 0 /\ kernel_status rt = 0.

(** The spelling of "Error code" in the [checkError] of a program. *)
Definition code_label (v : variant) : string :=
  match v with OCV => "error" | BMP | STB => "Error" end.




(** The reading of the specification: the objects are released in the
    reverse of the order of their creation. *)
Definition reverse_release (r : proc Z) : Prop :=
  released (trace r) = rev (created (trace r)).

Definition creation_order : list resource :=
  [Context; Queue; Program; Buffer InputBuffer; Buffer OutputBuffer;
   KernelObject].

Definition release_order : list resource :=
  [KernelObject; Program; Buffer InputBuffer; Buffer OutputBuffer;
   Queue; Context].


Definition is_uchar (z : Z) : Prop := 0 <= z <= 255.

(** The reading of the specification: the weighted sum
    [0.299 r + 0.587 g + 0.114 b] over the rationals, truncated. *)
Definition exact_luma (red green blue : Z) : Z :=
  (299 * red + 587 * green + 114 * blue) / 1000.

(** The byte the kernel computes for the pixel [(x, y)] of an image. *)
Definition pixel_gray (fc : F32.fp_contract) (input : Kernel.buffer)
    (width channels x y : Z) : option Z :=
  let idx := (y * width + x) * channels in
  blue ← Kernel.load input idx;
  green ← Kernel.load input (idx + 1);
  red ← Kernel.load input (idx + 2);
  Kernel.luma fc red green blue.

(** The reading of the specification holds for a contraction when the
    kernel computes the exact value for every pixel. *)
Definition exact_for (fc : F32.fp_contract) : Prop :=
  forall red green blue,
    is_uchar red -> is_uchar green -> is_uchar blue ->
    Kernel.luma fc red green blue = Some (exact_luma red green blue).

(** The order in which a loader stores the components of a pixel: a
    bitmap file and [cv::imread] have blue first, [stbi_load] has red
    first. *)
Inductive channel_order : Type := BGR | RGB.

Definition loader_order (v : variant) : channel_order :=
  match v with BMP | OCV => BGR | STB => RGB end.

Definition staged_pixel (o : channel_order) (red green blue : Z)
  : Kernel.buffer :=
  match o with
  | BGR => [blue; green; red]
  | RGB => [red; green; blue]
  end.

End Props.

(* ===================================================================== *)
(** * Vocabulary of the rounding analysis *)
(* ===================================================================== *)

Module Approx.

(** Values are counted in units of [2^-50]: every number the kernel
    computes is a whole number of them. *)
Definition scale : Z := 50.

(** [f] is zero or a normal positive number with exponent at least [lo],
    and is worth [u] units. *)
Definition represents (lo : Z) (f : F32.float) (u : Z) : Prop :=
  (f = S754_zero false /\ u = 0)
  \/ exists m e,
       f = S754_finite false m e
       /\ 2 ^ 23 <= Zpos m < 2 ^ 24
       /\ lo <= e
       /\ u = Zpos m * 2 ^ (e + scale).

(** The same as a test. *)
Definition represents_b (lo : Z) (f : F32.float) (u : Z) : bool :=
  match f with
  | S754_zero false => u =? 0
  | S754_finite false m e =>
      (2 ^ 23 <=? Zpos m) && (Zpos m <? 2 ^ 24) && (lo <=? e)
      && (u =? Zpos m * 2 ^ (e + scale))
  | _ => false
  end.

(** The three weights of the kernel, in units. *)
Definition u_0_299 : Z := 10032775 * 2 ^ 25.
Definition u_0_587 : Z := 9848226 * 2 ^ 26.
Definition u_0_114 : Z := 15300821 * 2 ^ 23.

(** [u'] is [u] with a relative error of at most [2^-24]: what rounding to
    nearest gives of a number in the normal range. *)
Definition near (u' u : Z) : Prop :=
  - u <= 2 ^ 24 * (u' - u) <= u.

(** The record a mantissa [M] leaves after [k] right shifts: the shifted
    mantissa, the bit shifted out last and whether a bit shifted out
    before it was set. *)
Definition shifted (M k : Z) (r : shr_record) : Prop :=
  0 <= shr_m r
  /\ exists T,
       0 <= T < 2 ^ k
       /\ (shr_s r = false -> T = 0)
       /\ 2 * M = 2 * shr_m r * 2 ^ k + (if shr_r r then 2 ^ k else 0) + T.

End Approx.

(* ===================================================================== *)
(** * Sample inputs *)
(* ===================================================================== *)

Module Sample.
Import Host.

(** A runtime on which every call succeeds. *)
Definition healthy : cl_runtime := {|
  platform_status := 0; device_status := 0; context_status := 0;
  queue_status := 0; program_status := 0; build_status := 0;
  build_log := "";
  input_buffer_status := 0; output_buffer_status := 0;
  write_status := 0; kernel_status := 0; arg_status := fun _ => 0;
  ndrange_status := 0; read_status := 0;
  uninitialised := fun _ => 0;
  contraction := F32.no_contraction
|}.

(** A platform without a GPU device. *)
Definition no_gpu : cl_runtime := {|
  platform_status := 0; device_status := CL_DEVICE_NOT_FOUND;
  context_status := 0;
  queue_status := 0; program_status := 0; build_status := 0;
  build_log := "";
  input_buffer_status := 0; output_buffer_status := 0;
  write_status := 0; kernel_status := 0; arg_status := fun _ => 0;
  ndrange_status := 0; read_status := 0;
  uninitialised := fun _ => 0;
  contraction := F32.no_contraction
|}.

(** A device compiler that rejects the kernel. *)
Definition broken_compiler : cl_runtime := {|
  platform_status := 0; device_status := 0; context_status := 0;
  queue_status := 0; program_status := 0; build_status := -11;
  build_log := "<kernel>:1:1: error";
  input_buffer_status := 0; output_buffer_status := 0;
  write_status := 0; kernel_status := 0; arg_status := fun _ => 0;
  ndrange_status := 0; read_status := 0;
  uninitialised := fun _ => 0;
  contraction := F32.no_contraction
|}.

(** A runtime that rejects the second kernel argument. *)
Definition bad_argument : cl_runtime := {|
  platform_status := 0; device_status := 0; context_status := 0;
  queue_status := 0; program_status := 0; build_status := 0;
  build_log := "";
  input_buffer_status := 0; output_buffer_status := 0;
  write_status := 0; kernel_status := 0;
  arg_status := fun i => if i =? 1 then CL_INVALID_MEM_OBJECT else 0;
  ndrange_status := 0; read_status := 0;
  uninitialised := fun _ => 0;
  contraction := F32.no_contraction
|}.

Definition on (rt : cl_runtime) : environment :=
  {| runtime := rt; output_writable := true |}.

(** A 24-bit bitmap of one red pixel: blue, green, red, and one byte
    that pads the row to four. *)
Definition red_bmp : bmp_file := {|
  bfType := (66, 77);
  info := {| biWidth := 1; biHeight := 1; biBitCount := 24;
             biSizeImage := 4 |};
  pixel_array := [0; 0; 255; 0]
|}.

(** What [stbi_load] returns for a picture of one red pixel: red, green,
    blue. *)
Definition red_stb : stb_image := {|
  stb_x := 1; stb_y := 1; channels_in_file := 3;
  stb_data := [255; 0; 0]
|}.

(** What [cv::imread] returns for a picture of two by two red pixels:
    blue, green, red for each. *)
Definition red_mat : Mat := {|
  cols := 2; rows := 2; mat_channels := 3;
  mat_data := [0; 0; 255; 0; 0; 255; 0; 0; 255; 0; 0; 255]
|}.

(** A device without memory for the input buffer. *)
Definition no_input_buffer : cl_runtime := {|
  platform_status := 0; device_status := 0; context_status := 0;
  queue_status := 0; program_status := 0; build_status := 0;
  build_log := "";
  input_buffer_status := -4; output_buffer_status := 0;
  write_status := 0; kernel_status := 0; arg_status := fun _ => 0;
  ndrange_status := 0; read_status := 0;
  uninitialised := fun _ => 0;
  contraction := F32.no_contraction
|}.

(** A directory the output file cannot be created in. *)
Definition read_only (rt : cl_runtime) : environment :=
  {| runtime := rt; output_writable := false |}.


End Sample.

(* ===================================================================== *)
(** * Stepping through a host program *)
(* ===================================================================== *)

Section ProcFacts.
Import Host.

Lemma bind_return {A B : Type} (a : A) (k : A -> proc B) :
  (mret a ≫= k) = k a.
Proof.
  unfold mbind, proc_bind, mret, proc_ret.
  destruct (k a) as [t o]; reflexivity.
Qed.

Lemma bind_emitted {A B : Type} (t : list event) (a : A) (k : A -> proc B) :
  ((t, Return a) ≫= k) = prefixed t (k a).
Proof.
  unfold mbind, proc_bind, prefixed. destruct (k a) as [t' o]; reflexivity.
Qed.

Lemma bind_emit {B : Type} (e : event) (k : unit -> proc B) :
  (emit e ≫= k) = prefixed [e] (k tt).
Proof. apply bind_emitted. Qed.

Lemma bind_exit {A B : Type} (s : Z) (k : A -> proc B) :
  (exit s ≫= k) = exit s.
Proof. reflexivity. Qed.

Lemma bind_release {B : Type} (rs : list resource) (k : unit -> proc B) :
  (release rs ≫= k) = prefixed (Release <$> rs) (k tt).
Proof. apply bind_emitted. Qed.

Lemma bind_check (label : string) (err : Z) (message : string)
    {B : Type} (k : unit -> proc B) :
  ((if err =? CL_SUCCESS then mret tt
    else emit (Stderr (error_line label message err));; exit 1) ≫= k)
  = if err =? CL_SUCCESS then k tt
    else ([Stderr (error_line label message err)], Exited 1).
Proof. destruct (err =? CL_SUCCESS); [apply bind_return|reflexivity]. Qed.

Lemma bind_checkError (err : Z) (message : string)
    {B : Type} (k : unit -> proc B) :
  (checkError err message ≫= k)
  = if err =? CL_SUCCESS then k tt
    else ([Stderr (error_line "Error" message err)], Exited 1).
Proof. apply bind_check. Qed.

Lemma bind_checkError_docker (err : Z) (message : string)
    {B : Type} (k : unit -> proc B) :
  (checkError_docker err message ≫= k)
  = if err =? CL_SUCCESS then k tt
    else ([Stderr (error_line "error" message err)], Exited 1).
Proof. apply bind_check. Qed.

Lemma bind_create (r : resource) (status : Z)
    {B : Type} (k : Z -> proc B) :
  (create r status ≫= k)
  = prefixed (if status =? CL_SUCCESS then [Create r] else []) (k status).
Proof. apply bind_emitted. Qed.

Lemma bind_clCreateBuffer (b : buffer_id) (size status : Z)
    {B : Type} (k : option Z * Z -> proc B) :
  (clCreateBuffer b size status ≫= k)
  = if status =? CL_SUCCESS
    then prefixed [Allocate b size] (k (Some size, status))
    else k (None, status).
Proof.
  unfold clCreateBuffer. destruct (status =? CL_SUCCESS).
  - apply bind_emitted.
  - apply (bind_return (None, status)).
Qed.

Lemma bind_write (rt : cl_runtime) (buf : option Z) (size : Z)
    {B : Type} (k : Z -> proc B) :
  (clEnqueueWriteBuffer rt buf size ≫= k)
  = match buf with
    | None => k CL_INVALID_MEM_OBJECT
    | Some capacity =>
        if capacity <? size then k CL_INVALID_VALUE
        else if write_status rt =? CL_SUCCESS
             then prefixed [WriteBuffer size] (k CL_SUCCESS)
             else k (write_status rt)
    end.
Proof.
  unfold clEnqueueWriteBuffer. destruct buf as [capacity|].
  - destruct (capacity <? size); [apply bind_return|].
    destruct (write_status rt =? CL_SUCCESS);
      [apply bind_emitted|apply bind_return].
  - apply bind_return.
Qed.

Lemma bind_read (rt : cl_runtime) (buf : option Z) (size : Z)
    {B : Type} (k : Z -> proc B) :
  (clEnqueueReadBuffer rt buf size ≫= k)
  = match buf with
    | None => k CL_INVALID_MEM_OBJECT
    | Some capacity =>
        if capacity <? size then k CL_INVALID_VALUE
        else if read_status rt =? CL_SUCCESS
             then prefixed [ReadBuffer size] (k CL_SUCCESS)
             else k (read_status rt)
    end.
Proof.
  unfold clEnqueueReadBuffer. destruct buf as [capacity|].
  - destruct (capacity <? size); [apply bind_return|].
    destruct (read_status rt =? CL_SUCCESS);
      [apply bind_emitted|apply bind_return].
  - apply bind_return.
Qed.

Lemma bind_ndrange (rt : cl_runtime) (dim : Z) (global : list Z)
    (local : option (list Z)) {B : Type} (k : Z -> proc B) :
  (clEnqueueNDRangeKernel rt dim global local ≫= k)
  = if ndrange_status rt =? CL_SUCCESS
    then prefixed [NDRange dim global local] (k CL_SUCCESS)
    else k (ndrange_status rt).
Proof.
  unfold clEnqueueNDRangeKernel.
  destruct (ndrange_status rt =? CL_SUCCESS);
    [apply bind_emitted|apply bind_return].
Qed.

Lemma bind_build (check : Z -> string -> proc unit) (rt : cl_runtime)
    {B : Type} (k : unit -> proc B) :
  (build_program check rt ≫= k)
  = if build_status rt =? CL_SUCCESS then k tt
    else prefixed [Stderr (build_log_text (build_log rt))]
           (check (build_status rt) "Building program" ≫= k).
Proof.
  unfold build_program.
  destruct (build_status rt =? CL_SUCCESS); [apply bind_return|].
  unfold prefixed, mbind, proc_bind, emit.
  destruct (check (build_status rt) "Building program") as [t [[]|s]];
    [destruct (k ()) as [t' o]|]; reflexivity.
Qed.

Lemma bind_saveBMP (name : string) (data : option Kernel.buffer)
    (writable : bool) {B : Type} (k : unit -> proc B) :
  (saveBMP name data writable ≫= k)
  = if writable then prefixed [WriteFile name data] (k tt)
    else ([Stderr ("Error: Unable to open file " +:+ name
                   +:+ " for writing." +:+ nl)], Exited 1).
Proof. destruct writable; [apply bind_emitted|reflexivity]. Qed.

Lemma bind_stbi_write_jpg (name : string) (data : option Kernel.buffer)
    (writable : bool) {B : Type} (k : unit -> proc B) :
  (stbi_write_jpg name data writable ≫= k)
  = if writable then prefixed [WriteFile name data] (k tt) else k tt.
Proof. destruct writable; [apply bind_emitted|apply bind_return]. Qed.

Lemma bind_imwrite (name : string) (data : option Kernel.buffer)
    (writable : bool) {B : Type} (k : unit -> proc B) :
  (imwrite name data writable ≫= k)
  = if writable then prefixed [WriteFile name data] (k tt) else k tt.
Proof. destruct writable; [apply bind_emitted|apply bind_return]. Qed.

Lemma bind_loadBMP (name : string) (file : option bmp_file)
    {B : Type} (k : Kernel.buffer * BMPInfoHeader -> proc B) :
  (loadBMP name file ≫= k)
  = match file with
    | None =>
        ([Stderr ("Error: Unable to open file " +:+ name +:+ "." +:+ nl)],
         Exited 1)
    | Some f =>
        if negb ((bfType f).1 =? 66) || negb ((bfType f).2 =? 77)
        then ([Stderr ("Error: Not a BMP file." +:+ nl)], Exited 1)
        else k (pixel_array f, info f)
    end.
Proof.
  unfold loadBMP. destruct file as [f|]; [|reflexivity].
  destruct (_ || _); [reflexivity|apply bind_return].
Qed.

Lemma magic_ok (a b : Z) :
  negb (a =? 66) || negb (b =? 77) = false -> a = 66 /\ b = 77.
Proof.
  intros H. apply orb_false_elim in H as [Ha Hb].
  apply negb_false_iff in Ha, Hb. lia.
Qed.

End ProcFacts.

(* ===================================================================== *)
(** * Aggregated status of the argument binds *)
(* ===================================================================== *)

Section BindStatus.
Import Host CInt.

Lemma ior_zero_iff (a b : Z) : ior a b = 0 <-> a = 0 /\ b = 0.
Proof. unfold ior. apply Z.lor_eq_0_iff. Qed.

Lemma bind_status_zero_iff (e0 e1 e2 e3 e4 : Z) :
  bind_status e0 e1 e2 e3 e4 = 0
  <-> e0 = 0 /\ e1 = 0 /\ e2 = 0 /\ e3 = 0 /\ e4 = 0.
Proof.
  unfold bind_status. rewrite !ior_zero_iff. tauto.
Qed.

Lemma bind_status_nonzero (e0 e1 e2 e3 e4 : Z) :
  e0 <> 0 \/ e1 <> 0 \/ e2 <> 0 \/ e3 <> 0 \/ e4 <> 0 ->
  bind_status e0 e1 e2 e3 e4 <> 0.
Proof. rewrite bind_status_zero_iff. lia. Qed.

End BindStatus.

(* ===================================================================== *)
(** * Integer arithmetic of the kernel *)
(* ===================================================================== *)

Section IntFacts.
Import CInt.

Lemma wrap32_small (z : Z) : fits_int z -> wrap32 z = z.
Proof.
  unfold fits_int, INT_MIN, INT_MAX, wrap32. intros H.
  rewrite Z.mod_small; lia.
Qed.

Lemma wrap32_range (z : Z) : fits_int (wrap32 z).
Proof.
  unfold fits_int, INT_MIN, INT_MAX, wrap32.
  pose proof (Z.mod_pos_bound (z + 2 ^ 31) (2 ^ 32)). lia.
Qed.


Lemma to_size_t_small (z : Z) : 0 <= z <= INT_MAX -> to_size_t z = z.
Proof.
  unfold to_size_t, INT_MAX. intros H. apply Z.mod_small. lia.
Qed.

(** Inside an image whose pixel count fits [int], the offsets are the
    mathematical ones. *)
Lemma gray_index_exact (w h x y : Z) :
  0 < w -> 0 < h -> w * h <= INT_MAX ->
  0 <= x < w -> 0 <= y < h ->
  Kernel.gray_index x y w = y * w + x /\ 0 <= y * w + x < w * h.
Proof.
  intros Hw Hh Hfit Hx Hy.
  assert (Hb : 0 <= y * w /\ y * w + x < w * h) by nia.
  unfold Kernel.gray_index, iadd, imul.
  rewrite (wrap32_small (y * w)) by (unfold fits_int, INT_MIN, INT_MAX in *; lia).
  rewrite wrap32_small by (unfold fits_int, INT_MIN, INT_MAX in *; lia).
  lia.
Qed.

Lemma pixel_index_exact (w h c x y : Z) :
  0 < w -> 0 < h -> 1 <= c -> w * h * c <= INT_MAX ->
  0 <= x < w -> 0 <= y < h ->
  Kernel.pixel_index x y w c = (y * w + x) * c
  /\ 0 <= (y * w + x) * c <= (w * h - 1) * c.
Proof.
  intros Hw Hh Hc Hfit Hx Hy.
  assert (Hwh : w * h <= INT_MAX) by nia.
  destruct (gray_index_exact w h x y) as [Hg Hr]; try assumption.
  unfold Kernel.pixel_index. fold (Kernel.gray_index x y w). rewrite Hg.
  assert (Hb : 0 <= (y * w + x) * c <= (w * h - 1) * c) by nia.
  unfold imul. rewrite wrap32_small; [lia|].
  unfold fits_int, INT_MIN, INT_MAX in *. nia.
Qed.

End IntFacts.

(* ===================================================================== *)
(** * The index space and the work-items *)
(* ===================================================================== *)

Section KernelFacts.
Import CInt Kernel Props.

Lemma bind_option_Some {A B : Type} (a : A) (k : A -> option B) :
  (Some a ≫= k) = k a.
Proof. reflexivity. Qed.

Lemma bind_option_None {A B : Type} (k : A -> option B) :
  (None ≫= k) = None.
Proof. reflexivity. Qed.

Lemma load_is_Some (buf : buffer) (i : Z) :
  is_Some (load buf i) <-> 0 <= i < Z.of_nat (length buf).
Proof.
  unfold load. destruct (Z.ltb_spec i 0) as [Hneg|Hpos].
  - split; [intros [v Hv]; discriminate|lia].
  - rewrite lookup_lt_is_Some. lia.
Qed.



Lemma store_in_bounds (buf : buffer) (i v : Z) :
  0 <= i < Z.of_nat (length buf) ->
  store buf i v = Some (<[Z.to_nat i := v]> buf).
Proof.
  intros H. unfold store.
  destruct (Z.leb_spec 0 i), (Z.ltb_spec i (Z.of_nat (length buf)));
    cbn; try lia; reflexivity.
Qed.

Lemma elem_of_work_items (gx gy x y : Z) :
  (x, y) ∈ work_items gx gy <-> 0 <= x < gx /\ 0 <= y < gy.
Proof.
  unfold work_items. rewrite list_elem_of_bind. split.
  - intros (y' & Hrow & Hy). apply list_elem_of_bind in Hrow as (x' & Hid & Hx).
    apply list_elem_of_singleton in Hid. injection Hid as -> ->.
    apply elem_of_seqZ in Hx, Hy. lia.
  - intros [Hx Hy]. exists y. split; [|apply elem_of_seqZ; lia].
    apply list_elem_of_bind. exists x. split; [|apply elem_of_seqZ; lia].
    apply list_elem_of_singleton. reflexivity.
Qed.

Lemma row_offsets (w y : Z) :
  (fun id : Z * Z => id.2 * w + id.1) <$> (x ← seqZ 0 w; [(x, y)])
  = seqZ (y * w) w.
Proof.
  rewrite <- (Z.add_0_r (y * w)) at 1. rewrite <- fmap_add_seqZ.
  induction (seqZ 0 w) as [|x l IH]; [reflexivity|].
  cbn. f_equal. exact IH.
Qed.

Lemma work_items_succ (w : Z) (n : nat) :
  work_items w (Z.of_nat (S n))
  = work_items w (Z.of_nat n) ++ (x ← seqZ 0 w; [(x, Z.of_nat n)]).
Proof.
  unfold work_items. rewrite seqZ_S, bind_app. cbn.
  rewrite app_nil_r. reflexivity.
Qed.

Lemma offsets_of_work_items (w : Z) (n : nat) :
  0 <= w ->
  (fun id : Z * Z => id.2 * w + id.1) <$> work_items w (Z.of_nat n)
  = seqZ 0 (w * Z.of_nat n).
Proof.
  intros Hw. induction n as [|n IH].
  - rewrite Z.mul_0_r. reflexivity.
  - rewrite work_items_succ, fmap_app, IH, row_offsets.
    replace (w * Z.of_nat (S n)) with (w * Z.of_nat n + w) by lia.
    rewrite seqZ_app by lia. f_equal. f_equal. lia.
Qed.

(** Every offset of the output buffer is the [gray_idx] of exactly one
    work-item. *)
Lemma gray_indices (w h : Z) :
  0 < w -> 0 < h -> w * h <= INT_MAX ->
  (fun id : Z * Z => gray_index id.1 id.2 w) <$> work_items w h
  = seqZ 0 (w * h).
Proof.
  intros Hw Hh Hfit.
  rewrite <- (Z2Nat.id h) at 2 by lia.
  rewrite <- offsets_of_work_items by lia. rewrite Z2Nat.id by lia.
  apply Forall_fmap_ext, Forall_forall. intros [x y] Hin.
  apply elem_of_work_items in Hin as [Hx Hy].
  apply gray_index_exact with (h := h); assumption.
Qed.


(** What one work-item does when its three reads succeed. *)
Lemma work_item_effect (fc : F32.fp_contract) (input output : buffer)
    (w h c x y blue green red gray : Z) :
  0 < w -> 0 < h -> 1 <= c -> w * h * c <= INT_MAX ->
  0 <= x < w -> 0 <= y < h ->
  load input ((y * w + x) * c) = Some blue ->
  load input (iadd ((y * w + x) * c) 1) = Some green ->
  load input (iadd ((y * w + x) * c) 2) = Some red ->
  luma fc red green blue = Some gray ->
  y * w + x < Z.of_nat (length output) ->
  rgb_to_gray fc input output w h c x y
  = Some (<[Z.to_nat (y * w + x) := gray]> output).
Proof.
  intros Hw Hh Hc Hfit Hx Hy Hb Hg Hr Hl Hout.
  assert (Hwh : w * h <= INT_MAX) by nia.
  destruct (pixel_index_exact w h c x y) as [Hp _]; try assumption.
  destruct (gray_index_exact w h x y) as [Hgi Hrange]; try assumption.
  unfold rgb_to_gray.
  rewrite (wrap32_small x), (wrap32_small y)
    by (unfold fits_int, INT_MIN, INT_MAX in *; nia).
  cbv zeta.
  rewrite Hp, Hgi, Hb, bind_option_Some, Hg, bind_option_Some, Hr,
    bind_option_Some, Hl, bind_option_Some.
  apply store_in_bounds. lia.
Qed.


End KernelFacts.

(* ===================================================================== *)
(** * Rounding to single precision *)
(* ===================================================================== *)

Section RoundingFacts.
Import Approx.

Lemma digits2_size (m : positive) : digits2_pos m = Pos.size m.
Proof. induction m as [m IH|m IH|]; cbn; congruence. Qed.

(** The number of binary digits of a mantissa brackets it between two
    powers of two. *)
Lemma digits2_bounds (m : positive) :
  let d := Zpos (digits2_pos m) in
  2 ^ (d - 1) <= Zpos m < 2 ^ d.
Proof.
  cbv zeta. rewrite digits2_size.
  assert (Hlog : Zpos (Pos.size m) = Z.log2 (Zpos m) + 1).
  { destruct m as [m|m|]; cbn; lia. }
  rewrite Hlog. replace (Z.log2 (Zpos m) + 1 - 1) with (Z.log2 (Zpos m)) by lia.
  apply (Z.log2_spec (Zpos m)). lia.
Qed.

Lemma shr_1_spec (r : shr_record) :
  0 <= shr_m r ->
  shr_1 r = {| shr_m := Z.div2 (shr_m r);
               shr_r := Z.odd (shr_m r);
               shr_s := shr_r r || shr_s r |}.
Proof.
  destruct r as [[|[p|p|]|p] r s]; cbn; intros H; try reflexivity; lia.
Qed.

Lemma shifted_start (M : Z) :
  0 <= M -> shifted M 0 {| shr_m := M; shr_r := false; shr_s := false |}.
Proof.
  intros HM. split; [exact HM|]. exists 0. cbn. lia.
Qed.

Lemma shifted_step (M k : Z) (r : shr_record) :
  0 <= k -> shifted M k r -> shifted M (k + 1) (shr_1 r).
Proof.
  intros Hk (Hm & T & HT & Hs & Heq).
  rewrite shr_1_spec by exact Hm. unfold shifted. cbn [shr_m shr_r shr_s].
  assert (Hp : 2 ^ (k + 1) = 2 * 2 ^ k) by (rewrite Z.pow_add_r; lia).
  pose proof (Z.div2_odd (shr_m r)) as Hdiv.
  assert (Hpos : 0 < 2 ^ k) by (apply Z.pow_pos_nonneg; lia).
  split.
  - rewrite Z.div2_div. apply Z.div_pos; lia.
  - exists ((if shr_r r then 2 ^ k else 0) + T).
    rewrite Hp. split; [|split].
    + destruct (shr_r r); lia.
    + intros Hor. apply orb_false_elim in Hor as [Hr Hs'].
      rewrite Hr. specialize (Hs Hs'). lia.
    + destruct (Z.odd (shr_m r)); cbn [Z.b2z] in Hdiv; nia.
Qed.

Lemma shifted_iter (M : Z) (p : positive) :
  forall (k : Z) (r : shr_record),
    0 <= k -> shifted M k r -> shifted M (k + Zpos p) (SpecFloat.iter_pos shr_1 p r).
Proof.
  induction p as [p IH|p IH|]; intros k r Hk Hr; cbn [SpecFloat.iter_pos].
  - replace (k + Zpos p~1) with (k + 1 + Zpos p + Zpos p) by lia.
    apply IH; [lia|]. apply IH; [lia|]. apply shifted_step; assumption.
  - replace (k + Zpos p~0) with (k + Zpos p + Zpos p) by lia.
    apply IH; [lia|]. apply IH; assumption.
  - apply shifted_step; assumption.
Qed.

End RoundingFacts.

Section RoundSpec.
Import Approx.

Lemma fexp_normal (x : Z) :
  -125 <= x -> fexp F32.prec F32.emax x = x - 24.
Proof.
  intros H. unfold fexp, emin, F32.prec, F32.emax. lia.
Qed.

Lemma pow2_pos (k : Z) : 0 <= k -> 0 < 2 ^ k.
Proof. intros H. apply Z.pow_pos_nonneg; lia. Qed.

Lemma pow2_split (a b : Z) : 0 <= a -> 0 <= b -> 2 ^ (a + b) = 2 ^ a * 2 ^ b.
Proof. intros Ha Hb. apply Z.pow_add_r; assumption. Qed.

(** A mantissa of at least 24 digits below [2^60] units has few digits. *)
Lemma digits_of_normal (m : positive) (e : Z) :
  2 ^ 23 <= Zpos m -> - scale <= e ->
  Zpos m * 2 ^ (e + scale) < 2 ^ 60 ->
  let d := Zpos (digits2_pos m) in
  24 <= d /\ d + e <= 10.
Proof.
  intros Hm He Hu d. unfold scale in *.
  pose proof (digits2_bounds m) as Hd. cbv zeta in Hd. fold d in Hd.
  assert (Hd1 : 0 < d) by (subst d; lia).
  split.
  - destruct (Z.lt_ge_cases d 24) as [Hlt|]; [exfalso|assumption].
    assert (2 ^ d <= 2 ^ 23) by (apply Z.pow_le_mono_r; lia). lia.
  - destruct (Z.le_gt_cases (d + e) 10) as [|Hgt]; [assumption|exfalso].
    assert (Hpow : 2 ^ 60 <= 2 ^ (d - 1) * 2 ^ (e + 50)).
    { rewrite <- pow2_split by lia. apply Z.pow_le_mono_r; lia. }
    pose proof (pow2_pos (e + 50)). nia.
Qed.

(** What [round_nearest_even] makes of the mantissa left by the shifts:
    one of the two neighbours, at most half a unit of the last place
    away. *)
Lemma round_after_shift (M n : Z) (r : shr_record) :
  0 <= n -> shifted M n r ->
  let q' := round_nearest_even (shr_m r) (loc_of_shr_record r) in
  shr_m r <= q' <= shr_m r + 1
  /\ - 2 ^ n <= 2 * (q' * 2 ^ n - M) <= 2 ^ n.
Proof.
  intros Hn (Hm & T & HT & Hs & Heq) q'. subst q'.
  pose proof (pow2_pos n Hn) as Hp.
  destruct r as [q [|] [|]]; cbn [shr_m shr_r shr_s] in *;
    cbn [loc_of_shr_record round_nearest_even].
  - nia.
  - specialize (Hs eq_refl). destruct (Z.even q); nia.
  - nia.
  - specialize (Hs eq_refl). nia.
Qed.

End RoundSpec.

Section RoundNormal.
Import Approx.

(** The second normalisation of [binary_round_aux]: a rounded mantissa
    of 24 digits stays, the mantissa [2^24] becomes [2^23] with the next
    exponent. *)
Lemma renormalise (q : Z) (e : Z) :
  2 ^ 23 <= q <= 2 ^ 24 -> -100 <= e ->
  exists m' e',
    shr_fexp F32.prec F32.emax q e loc_Exact
    = ({| shr_m := Zpos m'; shr_r := false; shr_s := false |}, e')
    /\ 2 ^ 23 <= Zpos m' < 2 ^ 24
    /\ e <= e' <= e + 1
    /\ Zpos m' * 2 ^ (e' - e) = q.
Proof.
  intros Hq He.
  destruct q as [|qp|qp]; try lia.
  unfold shr_fexp. cbn [Zdigits2 shr_record_of_loc].
  pose proof (digits2_bounds qp) as Hd. cbv zeta in Hd.
  set (d := Zpos (digits2_pos qp)) in *.
  assert (Hd0 : 0 < d) by (subst d; lia).
  assert (Hdlo : 24 <= d).
  { destruct (Z.lt_ge_cases d 24) as [Hlt|]; [exfalso|assumption].
    assert (2 ^ d <= 2 ^ 23) by (apply Z.pow_le_mono_r; lia). lia. }
  assert (Hdhi : d <= 25).
  { destruct (Z.le_gt_cases d 25) as [|Hgt]; [assumption|exfalso].
    assert (2 ^ 25 <= 2 ^ (d - 1)) by (apply Z.pow_le_mono_r; lia). lia. }
  rewrite fexp_normal by lia.
  destruct (Z.eq_dec d 24) as [H24|H24].
  - exists qp, e. replace (d + e - 24 - e) with 0 by lia.
    cbn [shr]. rewrite H24 in Hd. replace (e - e) with 0 by lia.
    repeat split; try lia.
  - assert (H25 : d = 25) by lia. rewrite H25 in Hd.
    assert (Hqp : qp = 16777216%positive).
    { apply Pos2Z.inj. change (2 ^ (25 - 1)) with 16777216 in Hd.
      change (2 ^ 24) with 16777216 in Hq. lia. }
    subst qp. exists 8388608%positive, (e + 1).
    replace (d + e - 24 - e) with 1 by lia.
    replace (e + 1 - e) with 1 by lia.
    repeat split; try lia; reflexivity.
Qed.

(** Rounding a normal number: the result is a normal number, nearest to
    the exact one. *)
Lemma round_normal (m : positive) (e : Z) :
  2 ^ 23 <= Zpos m -> - scale <= e ->
  Zpos m * 2 ^ (e + scale) < 2 ^ 60 ->
  exists m' e',
    binary_round_aux F32.prec F32.emax false (Zpos m) e loc_Exact
    = S754_finite false m' e'
    /\ 2 ^ 23 <= Zpos m' < 2 ^ 24
    /\ e <= e'
    /\ near (Zpos m' * 2 ^ (e' + scale)) (Zpos m * 2 ^ (e + scale)).
Proof.
  intros Hm He Hu.
  destruct (digits_of_normal m e Hm He Hu) as [Hd24 Hde].
  pose proof (digits2_bounds m) as Hd. cbv zeta in Hd.
  unfold scale in *.
  set (d := Zpos (digits2_pos m)) in *.
  set (n := d - 24).
  assert (Hn : 0 <= n) by (subst n; lia).
  pose proof (pow2_pos n Hn) as HP.
  pose proof (pow2_pos (e + 50) ltac:(lia)) as HS.
  assert (HMlo : 2 ^ 23 * 2 ^ n <= Zpos m).
  { rewrite <- pow2_split by lia. replace (23 + n) with (d - 1) by (subst n; lia). lia. }
  assert (HMhi : Zpos m < 2 ^ 24 * 2 ^ n).
  { rewrite <- pow2_split by lia. replace (24 + n) with d by (subst n; lia). lia. }
  (* the first shift *)
  assert (Hshift : exists r,
            shr_fexp F32.prec F32.emax (Zpos m) e loc_Exact = (r, e + n)
            /\ shifted (Zpos m) n r).
  { unfold shr_fexp. cbn [Zdigits2 shr_record_of_loc]. fold d.
    rewrite fexp_normal by lia.
    replace (d + e - 24 - e) with n by (subst n; lia).
    destruct n as [|p|p] eqn:En; try lia.
    - eexists. split; [cbn [shr]; rewrite Z.add_0_r; reflexivity|].
      apply shifted_start. lia.
    - eexists. split; [cbn [shr]; reflexivity|].
      apply (shifted_iter (Zpos m) p 0); [lia|apply shifted_start; lia]. }
  destruct Hshift as (r & Hshr & Hr).
  destruct (round_after_shift (Zpos m) n r Hn Hr) as [Hq' Herr].
  cbv zeta in Hq', Herr.
  set (q' := round_nearest_even (shr_m r) (loc_of_shr_record r)) in *.
  assert (Hqr : 2 ^ 23 <= q' <= 2 ^ 24).
  { destruct Hr as (Hm0 & T & HT & _ & Heq).
    destruct (shr_r r); nia. }
  destruct (renormalise q' (e + n)) as (m' & e' & Hnorm & Hm' & He' & Hval);
    [exact Hqr|lia|].
  exists m', e'.
  unfold binary_round_aux. rewrite Hshr. fold q'. rewrite Hnorm.
  cbn [shr_m].
  assert (Hexp : (e' <=? F32.emax - F32.prec) = true).
  { apply Z.leb_le. unfold F32.emax, F32.prec. subst n. lia. }
  rewrite Hexp. split; [reflexivity|]. split; [exact Hm'|].
  split; [lia|].
  (* the error *)
  unfold near.
  assert (Hu' : Zpos m' * 2 ^ (e' + 50) = q' * 2 ^ n * 2 ^ (e + 50)).
  { rewrite <- Hval.
    replace (e' + 50) with ((e' - (e + n)) + (n + (e + 50))) by lia.
    rewrite pow2_split by lia. rewrite (pow2_split n) by lia. ring. }
  rewrite Hu'.
  assert (Hrel : - Zpos m <= 2 ^ 24 * (q' * 2 ^ n - Zpos m) <= Zpos m) by nia.
  nia.
Qed.

End RoundNormal.

Section Operations.
Import Approx.

Lemma shl_align_value (mx : positive) (ex e : Z) :
  e <= ex -> Zpos (fst (shl_align mx ex e)) = Zpos mx * 2 ^ (ex - e).
Proof.
  intros He. unfold shl_align.
  destruct (e - ex) as [|d|d] eqn:Hd; cbn [fst]; try lia.
  - replace (ex - e) with 0 by lia. lia.
  - replace (ex - e) with (Zpos d) by lia.
    pose proof (shift_pos_correct d mx) as Hs. unfold shift_pos in Hs.
    rewrite Hs. change (Z.pow_pos 2 d) with (2 ^ Zpos d). ring.
Qed.

Lemma represents_nonneg (lo : Z) (f : F32.float) (u : Z) :
  - scale <= lo -> represents lo f u -> 0 <= u.
Proof.
  unfold scale. intros Hlo [[_ ->]|(m & e & _ & _ & He & ->)]; [lia|].
  pose proof (pow2_pos (e + 50) ltac:(lia)). nia.
Qed.

Lemma represents_weaken (lo lo' : Z) (f : F32.float) (u : Z) :
  lo' <= lo -> represents lo f u -> represents lo' f u.
Proof.
  intros Hlo [H|(m & e & Hf & Hm & He & Hu)]; [left; exact H|].
  right. exists m, e. repeat split; try assumption; lia.
Qed.

Lemma near_refl (u : Z) : 0 <= u -> near u u.
Proof. unfold near. intros H. lia. Qed.

(** [binary_normalize] of a positive number of at least 24 digits. *)
Lemma normalize_near (M : positive) (e : Z) :
  2 ^ 23 <= Zpos M -> - scale <= e ->
  Zpos M * 2 ^ (e + scale) < 2 ^ 60 ->
  exists u',
    represents (- scale)
      (binary_normalize F32.prec F32.emax (Zpos M) e false) u'
    /\ near u' (Zpos M * 2 ^ (e + scale)).
Proof.
  intros HM He Hu.
  destruct (digits_of_normal M e HM He Hu) as [Hd24 Hde]. cbv zeta in *.
  cbn [binary_normalize]. unfold binary_round.
  unfold scale in He.
  rewrite fexp_normal by lia.
  assert (Hal : shl_align M e (Zpos (digits2_pos M) + e - 24) = (M, e)).
  { unfold shl_align.
    destruct (Zpos (digits2_pos M) + e - 24 - e) eqn:Hd; try reflexivity.
    lia. }
  rewrite Hal.
  destruct (round_normal M e HM ltac:(unfold scale; lia) Hu)
    as (m' & e' & Hr & Hm' & He' & Hnear).
  rewrite Hr. exists (Zpos m' * 2 ^ (e' + scale)). split; [|exact Hnear].
  right. exists m', e'. unfold scale. repeat split; try lia.
Qed.

(** A sum of two numbers of the normal range. *)
Lemma add_near (x y : F32.float) (ux uy : Z) :
  represents (- scale) x ux -> represents (- scale) y uy ->
  ux + uy < 2 ^ 60 ->
  exists u', represents (- scale) (F32.add x y) u' /\ near u' (ux + uy).
Proof.
  intros Hx Hy Hsum.
  pose proof (represents_nonneg _ _ _ (Z.le_refl _) Hx) as Hx0.
  pose proof (represents_nonneg _ _ _ (Z.le_refl _) Hy) as Hy0.
  destruct Hx as [[-> ->]|(mx & ex & -> & Hmx & Hex & Hux)].
  - exists uy. split; [|rewrite Z.add_0_l; apply near_refl; exact Hy0].
    destruct Hy as [[-> ->]|(my & ey & -> & Hmy & Hey & Huy)].
    + left. split; reflexivity.
    + right. exists my, ey. repeat split; first [reflexivity|lia].
  - destruct Hy as [[-> ->]|(my & ey & -> & Hmy & Hey & Huy)].
    + exists ux. split; [|rewrite Z.add_0_r; apply near_refl; exact Hx0].
      right. exists mx, ex. repeat split; first [reflexivity|lia].
    + unfold F32.add, SFadd. cbn [cond_Zopp].
      set (e := Z.min ex ey).
      pose proof (shl_align_value mx ex e ltac:(subst e; lia)) as Hax.
      pose proof (shl_align_value my ey e ltac:(subst e; lia)) as Hay.
      set (ax := fst (shl_align mx ex e)) in *.
      set (ay := fst (shl_align my ey e)) in *.
      change (Zpos ax + Zpos ay) with (Zpos (ax + ay)).
      unfold scale in *.
      pose proof (pow2_pos (ex - e) ltac:(subst e; lia)) as Hpx.
      pose proof (pow2_pos (ey - e) ltac:(subst e; lia)) as Hpy.
      assert (Hval : Zpos (ax + ay) * 2 ^ (e + 50) = ux + uy).
      { rewrite Pos2Z.inj_add, Hax, Hay, Hux, Huy.
        replace (ex + 50) with ((ex - e) + (e + 50)) by lia.
        replace (ey + 50) with ((ey - e) + (e + 50)) by lia.
        rewrite (pow2_split (ex - e) (e + 50)), (pow2_split (ey - e) (e + 50))
          by (subst e; lia).
        ring. }
      destruct (normalize_near (ax + ay) e) as (u' & Hrep & Hnear).
      * rewrite Pos2Z.inj_add, Hax, Hay. nia.
      * unfold scale. subst e. lia.
      * unfold scale. rewrite Hval. exact Hsum.
      * exists u'. unfold scale in Hnear. rewrite Hval in Hnear.
        split; assumption.
Qed.

End Operations.

Section Products.
Import Approx.

Lemma add_zero_r (lo : Z) (f : F32.float) (u : Z) :
  represents lo f u -> F32.add f (S754_zero false) = f.
Proof.
  intros [[-> _]|(m & e & -> & _)]; reflexivity.
Qed.

Lemma add_zero_l (lo : Z) (f : F32.float) (u : Z) :
  represents lo f u -> F32.add (S754_zero false) f = f.
Proof.
  intros [[-> _]|(m & e & -> & _)]; reflexivity.
Qed.

Lemma near_zero (u : Z) : near u 0 -> u = 0.
Proof. unfold near. lia. Qed.

(** The exact product of a constant and a promoted byte, in units. *)
Lemma product_units (mx my : positive) (ex ey : Z) :
  -27 <= ex -> -23 <= ey ->
  (Zpos (mx * my) * 2 ^ (ex + ey + scale)) * 2 ^ scale
  = (Zpos mx * 2 ^ (ex + scale)) * (Zpos my * 2 ^ (ey + scale)).
Proof.
  intros Hex Hey. unfold scale.
  replace (ex + ey + 50) with ((ex + 27) + (ey + 23)) by lia.
  replace (ex + 50) with ((ex + 27) + 23) by lia.
  replace (ey + 50) with ((ey + 23) + 27) by lia.
  rewrite (pow2_split (ex + 27) (ey + 23)), (pow2_split (ex + 27) 23),
    (pow2_split (ey + 23) 27) by lia.
  rewrite Pos2Z.inj_mul.
  change (2 ^ 50) with (2 ^ 23 * 2 ^ 27). ring.
Qed.

(** A product of a constant and a promoted byte. *)
Lemma mul_near (x y : F32.float) (ux uy : Z) :
  represents (-27) x ux -> represents (-23) y uy ->
  ux * uy < 2 ^ 110 ->
  exists up u',
    up * 2 ^ scale = ux * uy
    /\ represents (- scale) (F32.mul x y) u'
    /\ near u' up.
Proof.
  intros Hx Hy Hbound.
  destruct Hx as [[-> ->]|(mx & ex & -> & Hmx & Hex & Hux)].
  { exists 0, 0. split; [lia|]. split; [|apply near_refl; lia].
    left. destruct Hy as [[-> _]|(my & ey & -> & _)]; split; reflexivity. }
  destruct Hy as [[-> ->]|(my & ey & -> & Hmy & Hey & Huy)].
  { exists 0, 0. split; [lia|]. split; [|apply near_refl; lia].
    left. split; reflexivity. }
  pose proof (product_units mx my ex ey Hex Hey) as Hprod.
  rewrite <- Hux, <- Huy in Hprod.
  set (up := Zpos (mx * my) * 2 ^ (ex + ey + scale)) in *.
  unfold F32.mul, SFmul. cbn [xorb].
  destruct (round_normal (mx * my) (ex + ey)) as (m' & e' & Hr & Hm' & He' & Hn).
  - rewrite Pos2Z.inj_mul. nia.
  - unfold scale. lia.
  - fold up. unfold scale in *. change (2 ^ 110) with (2 ^ 60 * 2 ^ 50) in Hbound.
    nia.
  - exists up, (Zpos m' * 2 ^ (e' + scale)). split; [exact Hprod|].
    split; [|exact Hn].
    rewrite Hr. right. exists m', e'. unfold scale.
    repeat split; first [reflexivity|lia].
Qed.

(** A fused product and sum. *)
Lemma fma_near (x y z : F32.float) (ux uy uz up : Z) :
  represents (-27) x ux -> represents (-23) y uy ->
  represents (- scale) z uz ->
  up * 2 ^ scale = ux * uy ->
  up + uz < 2 ^ 60 ->
  exists u', represents (- scale) (F32.fma x y z) u' /\ near u' (up + uz).
Proof.
  intros Hx Hy Hz Hup Hbound.
  pose proof (represents_nonneg _ _ _ (Z.le_refl _) Hz) as Hz0.
  assert (Hzero : ux = 0 \/ uy = 0 ->
            exists u', represents (- scale) (F32.add (F32.mul x y) z) u'
                       /\ near u' (up + uz)).
  { intros H0.
    assert (Hm : F32.mul x y = S754_zero false).
    { destruct Hx as [[-> ->]|(mx & ex & -> & Hmx & Hex & ->)];
        destruct Hy as [[-> ->]|(my & ey & -> & Hmy & Hey & ->)];
        try reflexivity.
      unfold scale in *.
      pose proof (pow2_pos (ex + 50) ltac:(lia)).
      pose proof (pow2_pos (ey + 50) ltac:(lia)). nia. }
    rewrite Hm, (add_zero_l _ _ _ Hz).
    assert (up = 0) by (unfold scale in *; nia). subst up.
    exists uz. split; [exact Hz|]. rewrite Z.add_0_l. apply near_refl, Hz0. }
  destruct Hx as [[-> ->]|(mx & ex & -> & Hmx & Hex & Hux)] eqn:Ex.
  { destruct y, z; apply Hzero; left; reflexivity. }
  destruct Hy as [[-> ->]|(my & ey & -> & Hmy & Hey & Huy)] eqn:Ey.
  { destruct z; apply Hzero; right; reflexivity. }
  clear Hzero.
  pose proof (product_units mx my ex ey Hex Hey) as Hprod.
  rewrite <- Hux, <- Huy, <- Hup in Hprod.
  assert (Hupv : up = Zpos (mx * my) * 2 ^ (ex + ey + scale)).
  { unfold scale in *. nia. }
  destruct Hz as [[-> ->]|(mz & ez & -> & Hmz & Hez & Huz)].
  - (* the addend is zero: the product, rounded once *)
    change (F32.fma (S754_finite false mx ex) (S754_finite false my ey)
                    (S754_zero false))
      with (F32.add (F32.mul (S754_finite false mx ex)
                             (S754_finite false my ey)) (S754_zero false)).
    destruct (mul_near (S754_finite false mx ex) (S754_finite false my ey)
                ux uy) as (up' & u' & Hup' & Hrep & Hn).
    + right. exists mx, ex. repeat split; first [reflexivity|lia].
    + right. exists my, ey. repeat split; first [reflexivity|lia].
    + rewrite <- Hup. unfold scale in *.
      change (2 ^ 110) with (2 ^ 60 * 2 ^ 50). nia.
    + assert (up' = up) by (unfold scale in *; nia). subst up'.
      rewrite (add_zero_r _ _ _ Hrep). exists u'.
      rewrite Z.add_0_r. split; assumption.
  - (* the fused operation *)
    unfold F32.fma. cbn [xorb cond_Zopp].
    set (exy := ex + ey). set (e := Z.min exy ez).
    pose proof (shl_align_value (mx * my) exy e ltac:(subst e; lia)) as Hap.
    pose proof (shl_align_value mz ez e ltac:(subst e; lia)) as Haz.
    set (ap := fst (shl_align (mx * my) exy e)) in *.
    set (az := fst (shl_align mz ez e)) in *.
    change (Zpos ap + Zpos az) with (Zpos (ap + az)).
    unfold scale in *.
    pose proof (pow2_pos (exy - e) ltac:(subst e; lia)) as Hpp.
    pose proof (pow2_pos (ez - e) ltac:(subst e; lia)) as Hpz.
    assert (Hval : Zpos (ap + az) * 2 ^ (e + 50) = up + uz).
    { rewrite Pos2Z.inj_add, Hap, Haz, Hupv, Huz.
      replace (ex + ey + 50) with ((exy - e) + (e + 50)) by (subst exy; lia).
      replace (ez + 50) with ((ez - e) + (e + 50)) by lia.
      rewrite (pow2_split (exy - e) (e + 50)), (pow2_split (ez - e) (e + 50))
        by (subst e exy; lia).
      ring. }
    destruct (normalize_near (ap + az) e) as (u' & Hrep & Hnear).
    + rewrite Pos2Z.inj_add, Haz. nia.
    + unfold scale. subst e exy. lia.
    + unfold scale. rewrite Hval. exact Hbound.
    + exists u'. unfold scale in Hnear. rewrite Hval in Hnear.
      split; assumption.
Qed.

End Products.

Section Luminance.
Import Approx Props Kernel.

Lemma represents_b_sound (lo : Z) (f : F32.float) (u : Z) :
  represents_b lo f u = true -> represents lo f u.
Proof.
  destruct f as [[|]| | |[|] m e]; cbn; try discriminate.
  - intros H. left. split; [reflexivity|lia].
  - intros H. right. exists m, e.
    repeat (apply andb_prop in H as [H ?]).
    repeat split; first [reflexivity|lia].
Qed.

(** The weights are the binary32 numbers nearest to 0.299, 0.587 and
    0.114. *)
Lemma weights_units :
  represents (-27) c_0_299 u_0_299
  /\ represents (-27) c_0_587 u_0_587
  /\ represents (-27) c_0_114 u_0_114.
Proof. repeat split; apply represents_b_sound; vm_compute; reflexivity. Qed.

(** The promotion of a byte to [float] is exact. *)
Lemma of_int_byte (v : Z) :
  is_uchar v -> represents (-23) (F32.of_int v) (v * 2 ^ scale).
Proof.
  intros Hv. apply represents_b_sound.
  assert (Hall : forallb (fun v => represents_b (-23) (F32.of_int v)
                                     (v * 2 ^ scale)) (seqZ 0 256) = true)
    by (vm_compute; reflexivity).
  rewrite forallb_forall in Hall. apply Hall.
  apply list_elem_of_In, elem_of_seqZ. unfold is_uchar in Hv. lia.
Qed.

Lemma byte_product (c : F32.float) (uc v : Z) :
  represents (-27) c uc -> 0 <= uc < 2 ^ 50 -> is_uchar v ->
  exists u', represents (- scale) (F32.mul c (F32.of_int v)) u'
             /\ near u' (uc * v).
Proof.
  intros Hc Huc Hv.
  destruct (mul_near c (F32.of_int v) uc (v * 2 ^ scale) Hc (of_int_byte v Hv))
    as (up & u' & Hup & Hrep & Hn).
  - unfold scale, is_uchar in *. nia.
  - exists u'. split; [exact Hrep|].
    assert (up = uc * v) by (unfold scale in *; nia). subst up. exact Hn.
Qed.

Lemma byte_fma (c z : F32.float) (uc v uz : Z) :
  represents (-27) c uc -> 0 <= uc < 2 ^ 50 -> is_uchar v ->
  represents (- scale) z uz -> uc * v + uz < 2 ^ 60 ->
  exists u', represents (- scale) (F32.fma c (F32.of_int v) z) u'
             /\ near u' (uc * v + uz).
Proof.
  intros Hc Huc Hv Hz Hb.
  apply (fma_near c (F32.of_int v) z uc (v * 2 ^ scale) uz (uc * v));
    try assumption.
  - apply of_int_byte, Hv.
  - ring.
Qed.

(** The value of the expression of the kernel, within [2^48] thousandths
    of a unit of the exact weighted sum. *)
Lemma gray_value_units (fc : F32.fp_contract) (red green blue : Z) :
  is_uchar red -> is_uchar green -> is_uchar blue ->
  exists u,
    represents (- scale) (gray_value fc red green blue) u
    /\ - 2 ^ 48
       <= 1000 * u - (299 * red + 587 * green + 114 * blue) * 2 ^ scale
       <= 2 ^ 48.
Proof.
  intros Hr Hg Hb.
  destruct weights_units as (Wr & Wg & Wb).
  assert (Hur : 0 <= u_0_299 < 2 ^ 50) by (unfold u_0_299; lia).
  assert (Hug : 0 <= u_0_587 < 2 ^ 50) by (unfold u_0_587; lia).
  assert (Hub : 0 <= u_0_114 < 2 ^ 50) by (unfold u_0_114; lia).
  destruct (byte_product _ _ red Wr Hur Hr) as (pr & Rr & Nr).
  destruct (byte_product _ _ green Wg Hug Hg) as (pg & Rg & Ng).
  destruct (byte_product _ _ blue Wb Hub Hb) as (pb & Rb & Nb).
  unfold gray_value.
  assert (Hinner : exists s,
            represents (- scale)
              match F32.inner fc with
              | F32.inner_separate =>
                  F32.add (F32.mul c_0_299 (F32.of_int red))
                          (F32.mul c_0_587 (F32.of_int green))
              | F32.inner_fuse_left =>
                  F32.fma c_0_299 (F32.of_int red)
                          (F32.mul c_0_587 (F32.of_int green))
              | F32.inner_fuse_right =>
                  F32.fma c_0_587 (F32.of_int green)
                          (F32.mul c_0_299 (F32.of_int red))
              end s
            /\ - 2 ^ 36 <= s - (u_0_299 * red + u_0_587 * green) <= 2 ^ 36).
  { unfold near, is_uchar, u_0_299, u_0_587, u_0_114 in *.
    destruct (F32.inner fc).
    - destruct (add_near _ _ pr pg Rr Rg) as (s & Rs & Ns); [lia|].
      exists s. split; [exact Rs|]. unfold near in Ns. lia.
    - destruct (byte_fma c_0_299 _ u_0_299 red pg Wr Hur Hr Rg)
        as (s & Rs & Ns); [unfold u_0_299; lia|].
      exists s. split; [exact Rs|]. unfold near, u_0_299 in Ns. lia.
    - destruct (byte_fma c_0_587 _ u_0_587 green pr Wg Hug Hg Rr)
        as (s & Rs & Ns); [unfold u_0_587; lia|].
      exists s. split; [exact Rs|]. unfold near, u_0_587 in Ns. lia. }
  destruct Hinner as (s & Rs & Ns).
  cbv zeta.
  unfold near, is_uchar, u_0_299, u_0_587, u_0_114, scale in *.
  destruct (F32.outer_fused fc).
  - destruct (byte_fma c_0_114 _ u_0_114 blue s Wb Hub Hb Rs)
      as (u & Ru & Nu); [unfold u_0_114; lia|].
    exists u. split; [exact Ru|]. unfold near, u_0_114 in Nu. lia.
  - destruct (add_near _ _ s pb Rs Rb) as (u & Ru & Nu); [lia|].
    exists u. split; [exact Ru|]. unfold near in Nu. lia.
Qed.

End Luminance.

Section LuminanceByte.
Import CInt Approx Props Kernel.

Lemma trunc_units (f : F32.float) (u : Z) :
  represents (- scale) f u -> F32.trunc f = Some (u / 2 ^ scale).
Proof.
  unfold represents, scale.
  intros [[-> ->]|(m & e & -> & Hm & He & ->)]; [reflexivity|].
  unfold F32.trunc. cbn [cond_Zopp]. f_equal.
  destruct (Z.leb_spec 0 e) as [Hpos|Hneg].
  - rewrite (pow2_split e 50) by lia. rewrite Z.mul_assoc.
    symmetry. apply Z.div_mul. lia.
  - replace (2 ^ 50) with (2 ^ (e + 50) * 2 ^ (- e))
      by (rewrite <- pow2_split by lia; f_equal; lia).
    symmetry. rewrite Z.mul_comm.
    apply Z.div_mul_cancel_l; apply Z.pow_nonzero; lia.
Qed.

Lemma all_contractions_complete (fc : F32.fp_contract) :
  fc ∈ F32.all_contractions.
Proof.
  destruct fc as [[| |] [|]]; unfold F32.all_contractions;
    repeat first [apply list_elem_of_here | apply list_elem_of_further].
Qed.

(** The byte the kernel computes from three channel bytes. *)
Lemma luma_near_exact (fc : F32.fp_contract) (red green blue : Z) :
  is_uchar red -> is_uchar green -> is_uchar blue ->
  exists gray,
    luma fc red green blue = Some gray
    /\ F32.trunc (gray_value fc red green blue) = Some gray
    /\ is_uchar gray
    /\ exact_luma red green blue - 1 <= gray <= exact_luma red green blue
    /\ ((299 * red + 587 * green + 114 * blue) mod 1000 <> 0 ->
        gray = exact_luma red green blue).
Proof.
  intros Hr Hg Hb.
  destruct (gray_value_units fc red green blue Hr Hg Hb) as (u & Ru & Hu).
  pose proof (trunc_units _ _ Ru) as Ht.
  unfold scale, is_uchar, exact_luma in *.
  change (2 ^ 50) with 1125899906842624 in *.
  change (2 ^ 48) with 281474976710656 in *.
  set (k := 299 * red + 587 * green + 114 * blue) in *.
  assert (Hk : 0 <= k <= 255000) by (subst k; lia).
  assert (Hlow : k / 1000 - 1 <= u / 1125899906842624 <= k / 1000)
    by (Z.div_mod_to_equations; lia).
  assert (Hexact : k mod 1000 <> 0 -> u / 1125899906842624 = k / 1000)
    by (Z.div_mod_to_equations; lia).
  assert (Hbyte : 0 <= u / 1125899906842624 <= 255).
  { destruct (Z.eq_dec k 0) as [Hk0|Hk0];
      [|clear Hexact Ht Ru; Z.div_mod_to_equations; lia].
    assert (red = 0 /\ green = 0 /\ blue = 0) as (-> & -> & ->)
      by (subst k; lia).
    assert (Hz : gray_value fc 0 0 0 = S754_zero false)
      by (destruct fc as [[| |] [|]]; vm_compute; reflexivity).
    rewrite Hz in Ht. cbn in Ht. injection Ht as <-. lia. }
  assert (Hl : luma fc red green blue = Some (u / 1125899906842624)).
  { unfold luma, F32.to_uchar. rewrite Ht.
    destruct (Z.leb_spec 0 (u / 1125899906842624)); [|lia].
    destruct (Z.leb_spec (u / 1125899906842624) 255); [|lia].
    reflexivity. }
  exists (u / 1125899906842624).
  split; [exact Hl|]. split; [exact Ht|]. split; [exact Hbyte|].
  split; [exact Hlow|exact Hexact].
Qed.

(** C1, as the kernel has it.  For a pixel with channel bytes red, green
    and blue the kernel computes [0.299f*red + 0.587f*green + 0.114f*blue]
    in single precision, whichever products the device compiler fuses with
    a sum, and writes its integer part, a byte, to the output at offset
    [y*width + x].  The byte is the integer part of the exact weighted sum
    whenever that sum is not an integer, and that integer or the one below
    it otherwise.  It is 255 for a white pixel, 0 for a black one and 76
    for a red one. *)
Theorem luma_is_truncated_binary32 (fc : F32.fp_contract)
    (red green blue : Z) :
  is_uchar red -> is_uchar green -> is_uchar blue ->
  exists gray,
    luma fc red green blue = Some gray
    /\ F32.trunc (gray_value fc red green blue) = Some gray
    /\ is_uchar gray
    /\ exact_luma red green blue - 1 <= gray <= exact_luma red green blue
    /\ ((299 * red + 587 * green + 114 * blue) mod 1000 <> 0 ->
        gray = exact_luma red green blue)
    /\ (forall input output w h c x y,
          0 < w -> 0 < h -> 1 <= c -> w * h * c <= INT_MAX ->
          0 <= x < w -> 0 <= y < h ->
          load input ((y * w + x) * c) = Some blue ->
          load input (iadd ((y * w + x) * c) 1) = Some green ->
          load input (iadd ((y * w + x) * c) 2) = Some red ->
          y * w + x < Z.of_nat (length output) ->
          rgb_to_gray fc input output w h c x y
          = Some (<[Z.to_nat (y * w + x) := gray]> output))
    /\ luma fc 255 255 255 = Some 255
    /\ luma fc 0 0 0 = Some 0
    /\ luma fc 255 0 0 = Some 76.
Proof.
  intros Hr Hg Hb.
  destruct (luma_near_exact fc red green blue Hr Hg Hb)
    as (gray & Hl & Ht & Hbyte & Hlow & Hexact).
  exists gray.
  split; [exact Hl|]. split; [exact Ht|]. split; [exact Hbyte|].
  split; [exact Hlow|]. split; [exact Hexact|]. split.
  - intros input output w h c x y Hw Hh Hc Hfit Hx Hy Lb Lg Lr Hout.
    eapply work_item_effect; eassumption.
  - destruct fc as [[| |] [|]]; repeat split; vm_compute; reflexivity.
Qed.

Lemma luma_is_truncated_binary32_witness :
  exists gray,
    luma F32.no_contraction 85 3 16 = Some gray
    /\ exact_luma 85 3 16 - 1 <= gray <= exact_luma 85 3 16.
Proof.
  destruct (luma_is_truncated_binary32 F32.no_contraction 85 3 16)
    as (gray & Hl & _ & _ & Hlow & _);
    [unfold is_uchar; lia | unfold is_uchar; lia | unfold is_uchar; lia|].
  exists gray. split; [exact Hl|exact Hlow].
Defined.

(** C1, as the specification has it, fails: for the pixel (85, 3, 16) the
    exact weighted sum is 29, and the kernel writes 28 with every
    contraction. *)
Lemma exact_luma_counterexample :
  exact_luma 85 3 16 = 29
  /\ Forall (fun fc => luma fc 85 3 16 = Some 28 /\ ~ exact_for fc)
            F32.all_contractions.
Proof.
  split; [reflexivity|].
  apply Forall_forall. intros fc Hfc.
  assert (Hl : luma fc 85 3 16 = Some 28).
  { destruct fc as [[| |] [|]]; vm_compute; reflexivity. }
  split; [exact Hl|]. intros Hex.
  specialize (Hex 85 3 16). rewrite Hl in Hex.
  unfold is_uchar in Hex. discriminate Hex; lia.
Qed.

End LuminanceByte.

(* ===================================================================== *)
(** * The whole image *)
(* ===================================================================== *)

Section WholeImage.
Import CInt Approx Props Kernel.

Lemma run_items_undefined {A B : Type} (f : option A -> B -> option A)
    (items : list B) :
  (forall b, f None b = None) -> foldl f None items = None.
Proof.
  intros Hf. induction items as [|b items IH]; [reflexivity|].
  cbn [foldl]. rewrite Hf. exact IH.
Qed.

Lemma run_items_cons (fc : F32.fp_contract) (input : buffer)
    (w h c : Z) (id : Z * Z) (items : list (Z * Z)) (output : buffer) :
  run_items fc input w h c (id :: items) output
  = out ← rgb_to_gray fc input output w h c id.1 id.2;
    run_items fc input w h c items out.
Proof.
  unfold run_items. cbn [foldl]. rewrite bind_option_Some.
  destruct (rgb_to_gray fc input output w h c id.1 id.2) as [out|].
  - rewrite bind_option_Some. reflexivity.
  - rewrite bind_option_None. apply run_items_undefined.
    intros b. apply bind_option_None.
Qed.

(** Inside an image of at least three channels the three bytes of every
    pixel are there, and the kernel has a byte for them. *)
Lemma pixel_gray_defined (fc : F32.fp_contract) (input : buffer)
    (w h c x y : Z) :
  0 < w -> 0 < h -> 3 <= c -> w * h * c <= INT_MAX ->
  Z.of_nat (length input) = w * h * c ->
  Forall is_uchar input ->
  0 <= x < w -> 0 <= y < h ->
  exists blue green red gray,
    load input ((y * w + x) * c) = Some blue
    /\ load input (iadd ((y * w + x) * c) 1) = Some green
    /\ load input (iadd ((y * w + x) * c) 2) = Some red
    /\ luma fc red green blue = Some gray
    /\ pixel_gray fc input w c x y = Some gray
    /\ exact_luma red green blue - 1 <= gray <= exact_luma red green blue.
Proof.
  intros Hw Hh Hc Hfit Hlen Hbytes Hx Hy.
  destruct (pixel_index_exact w h c x y) as [_ Hidx]; try lia.
  set (idx := (y * w + x) * c) in *.
  assert (Hin : 0 <= idx /\ idx + 2 < w * h * c) by nia.
  assert (Hload : forall i, idx <= i <= idx + 2 ->
            exists v, load input i = Some v /\ is_uchar v).
  { intros i Hi.
    destruct (proj2 (load_is_Some input i)) as [v Hv]; [lia|].
    exists v. split; [exact Hv|].
    unfold load in Hv. destruct (i <? 0); [discriminate|].
    rewrite Forall_lookup in Hbytes. apply (Hbytes _ _ Hv). }
  destruct (Hload idx) as (blue & Lb & Ub); [lia|].
  destruct (Hload (idx + 1)) as (green & Lg & Ug); [lia|].
  destruct (Hload (idx + 2)) as (red & Lr & Ur); [lia|].
  destruct (luma_near_exact fc red green blue Ur Ug Ub)
    as (gray & Hl & _ & _ & Hlow & _).
  exists blue, green, red, gray.
  unfold iadd.
  rewrite !wrap32_small by (unfold fits_int, INT_MIN, INT_MAX in *; lia).
  split; [exact Lb|]. split; [exact Lg|]. split; [exact Lr|].
  split; [exact Hl|]. split; [|exact Hlow].
  unfold pixel_gray. cbv zeta. fold idx.
  rewrite Lb, bind_option_Some, Lg, bind_option_Some, Lr, bind_option_Some.
  exact Hl.
Qed.

(** Running the kernel over work-items of distinct output offsets: every
    work-item leaves the byte of its pixel at its offset, and the other
    offsets are not touched. *)
Lemma run_items_image (fc : F32.fp_contract) (input : buffer)
    (w h c : Z) :
  0 < w -> 0 < h -> 3 <= c -> w * h * c <= INT_MAX ->
  Z.of_nat (length input) = w * h * c ->
  Forall is_uchar input ->
  forall (items : list (Z * Z)) (output : buffer),
    Forall (fun id => 0 <= id.1 < w /\ 0 <= id.2 < h) items ->
    NoDup ((fun id : Z * Z => id.2 * w + id.1) <$> items) ->
    Z.of_nat (length output) = w * h ->
    exists out',
      run_items fc input w h c items output = Some out'
      /\ length out' = length output
      /\ (forall id, id ∈ items ->
            out' !! Z.to_nat (id.2 * w + id.1)
            = pixel_gray fc input w c id.1 id.2)
      /\ (forall j, (forall id, id ∈ items -> j <> Z.to_nat (id.2 * w + id.1)) ->
            out' !! j = output !! j).
Proof.
  intros Hw Hh Hc Hfit Hlen Hbytes items.
  induction items as [|[x y] items IH]; intros output Hrange Hnodup Hout.
  - exists output. split; [reflexivity|]. split; [reflexivity|].
    split; [intros id Hid; inversion Hid|reflexivity].
  - apply Forall_cons in Hrange as [[Hx Hy] Hrange]. cbn [fst snd] in Hx, Hy.
    rewrite fmap_cons in Hnodup. apply NoDup_cons in Hnodup as [Hfresh Hnodup].
    cbn [fst snd] in Hfresh.
    destruct (pixel_gray_defined fc input w h c x y)
      as (blue & green & red & gray & Lb & Lg & Lr & Hl & Hp & _);
      try assumption.
    destruct (gray_index_exact w h x y) as [_ Hoff]; try assumption; [nia|].
    rewrite run_items_cons. cbn [fst snd].
    rewrite (work_item_effect fc input output w h c x y blue green red gray)
      by (try assumption; lia).
    rewrite bind_option_Some.
    destruct (IH (<[Z.to_nat (y * w + x) := gray]> output))
      as (out' & Hrun & Hlen' & Hpix & Hrest); try assumption.
    { rewrite length_insert. exact Hout. }
    exists out'. split; [exact Hrun|].
    split; [rewrite Hlen'; apply length_insert|]. split.
    + intros id Hid. apply elem_of_cons in Hid as [->|Hid].
      * cbn [fst snd]. rewrite Hrest.
        -- rewrite list_lookup_insert_eq by lia. symmetry. exact Hp.
        -- intros id Hid Heq. apply Hfresh.
           apply list_elem_of_fmap. exists id. split; [|exact Hid].
           rewrite Forall_forall in Hrange. specialize (Hrange id).
           assert (Hr : 0 <= id.1 < w /\ 0 <= id.2 < h)
             by (apply Hrange, Hid).
           nia.
      * apply Hpix, Hid.
    + intros j Hj. rewrite Hrest.
      * apply list_lookup_insert_ne. intros Heq. apply (Hj (x, y)).
        -- apply list_elem_of_here.
        -- cbn [fst snd]. congruence.
      * intros id Hid. apply Hj. apply list_elem_of_further, Hid.
Qed.

(** The launch over the index space of an image of at least three
    channels is defined, and leaves at the offset [y*width + x] of the
    output the byte the kernel computes for the pixel [(x, y)]: no
    work-item overwrites the byte of another. *)
Theorem image_is_converted (fc : F32.fp_contract) (input output : buffer)
    (w h c : Z) :
  0 < w -> 0 < h -> 3 <= c -> w * h * c <= INT_MAX ->
  Z.of_nat (length input) = w * h * c ->
  Forall is_uchar input ->
  Z.of_nat (length output) = w * h ->
  exists out',
    run_ndrange fc input output w h c w h = Some out'
    /\ Z.of_nat (length out') = w * h
    /\ forall x y, 0 <= x < w -> 0 <= y < h ->
         exists gray,
           out' !! Z.to_nat (y * w + x) = Some gray
           /\ pixel_gray fc input w c x y = Some gray.
Proof.
  intros Hw Hh Hc Hfit Hlen Hbytes Hout.
  destruct (run_items_image fc input w h c Hw Hh Hc Hfit Hlen Hbytes
              (work_items w h) output) as (out' & Hrun & Hlen' & Hpix & _).
  - apply Forall_forall. intros [x y] Hin.
    apply elem_of_work_items in Hin. exact Hin.
  - rewrite <- (Z2Nat.id h) by lia.
    rewrite offsets_of_work_items by lia. apply NoDup_seqZ.
  - exact Hout.
  - exists out'. split; [exact Hrun|]. split; [lia|].
    intros x y Hx Hy.
    destruct (pixel_gray_defined fc input w h c x y)
      as (blue & green & red & gray & _ & _ & _ & _ & Hp & _);
      try assumption.
    exists gray. split; [|exact Hp].
    rewrite <- Hp. apply (Hpix (x, y)). apply elem_of_work_items. lia.
Qed.

End WholeImage.

(* ===================================================================== *)
(** * The order of the work-items *)
(* ===================================================================== *)

Section LaunchOrder.
Import CInt Kernel Props.

(** A work-item either is undefined whatever the output buffer holds, or
    stores one byte, which depends on the input alone, at its offset. *)
Lemma work_item_shape (fc : F32.fp_contract) (input : buffer)
    (w h c gid0 gid1 : Z) :
  (forall output, rgb_to_gray fc input output w h c gid0 gid1 = None)
  \/ exists gray,
       forall output,
         rgb_to_gray fc input output w h c gid0 gid1
         = store output (gray_index (wrap32 gid0) (wrap32 gid1) w) gray.
Proof.
  destruct (load input (pixel_index (wrap32 gid0) (wrap32 gid1) w c))
    as [blue|] eqn:Eb.
  2: { left. intros output. unfold rgb_to_gray. cbv zeta.
       rewrite Eb. apply bind_option_None. }
  destruct (load input
              (iadd (pixel_index (wrap32 gid0) (wrap32 gid1) w c) 1))
    as [green|] eqn:Eg.
  2: { left. intros output. unfold rgb_to_gray. cbv zeta.
       rewrite Eb, bind_option_Some, Eg. apply bind_option_None. }
  destruct (load input
              (iadd (pixel_index (wrap32 gid0) (wrap32 gid1) w c) 2))
    as [red|] eqn:Er.
  2: { left. intros output. unfold rgb_to_gray. cbv zeta.
       rewrite Eb, bind_option_Some, Eg, bind_option_Some, Er.
       apply bind_option_None. }
  destruct (luma fc red green blue) as [gray|] eqn:El.
  2: { left. intros output. unfold rgb_to_gray. cbv zeta.
       rewrite Eb, bind_option_Some, Eg, bind_option_Some, Er,
         bind_option_Some, El.
       apply bind_option_None. }
  right. exists gray. intros output. unfold rgb_to_gray. cbv zeta.
  rewrite Eb, bind_option_Some, Eg, bind_option_Some, Er,
    bind_option_Some, El, bind_option_Some.
  reflexivity.
Qed.

Lemma store_store_commute (buf : buffer) (i j v u : Z) :
  i <> j ->
  (out ← store buf i v; store out j u)
  = (out ← store buf j u; store out i v).
Proof.
  intros Hne. unfold store.
  destruct (Z.leb_spec 0 i), (Z.ltb_spec i (Z.of_nat (length buf))),
           (Z.leb_spec 0 j), (Z.ltb_spec j (Z.of_nat (length buf)));
    cbn [andb]; rewrite ?bind_option_Some, ?bind_option_None;
    rewrite ?length_insert;
    repeat match goal with
      | |- context [0 <=? ?a] => destruct (Z.leb_spec 0 a); try lia
      | |- context [?a <? ?b] => destruct (Z.ltb_spec a b); try lia
      end;
    cbn [andb]; try reflexivity.
  f_equal. apply list_insert_insert_ne. lia.
Qed.

(** Two work-items with different output offsets can run in either
    order. *)
Lemma work_items_commute (fc : F32.fp_contract) (input output : buffer)
    (w h c : Z) (a b : Z * Z) :
  gray_index (wrap32 a.1) (wrap32 a.2) w
  <> gray_index (wrap32 b.1) (wrap32 b.2) w ->
  (out ← rgb_to_gray fc input output w h c a.1 a.2;
   rgb_to_gray fc input out w h c b.1 b.2)
  = (out ← rgb_to_gray fc input output w h c b.1 b.2;
     rgb_to_gray fc input out w h c a.1 a.2).
Proof.
  intros Hne.
  destruct (work_item_shape fc input w h c a.1 a.2) as [Ha|[ga Ha]],
           (work_item_shape fc input w h c b.1 b.2) as [Hb|[gb Hb]].
  - rewrite Ha, Hb. reflexivity.
  - rewrite Ha, bind_option_None.
    destruct (rgb_to_gray fc input output w h c b.1 b.2) as [out|];
      [rewrite bind_option_Some; symmetry; apply Ha|reflexivity].
  - rewrite Hb, bind_option_None.
    destruct (rgb_to_gray fc input output w h c a.1 a.2) as [out|];
      [rewrite bind_option_Some; apply Hb|reflexivity].
  - rewrite Ha, Hb.
    transitivity (out ← store output
                          (gray_index (wrap32 a.1) (wrap32 a.2) w) ga;
                  store out (gray_index (wrap32 b.1) (wrap32 b.2) w) gb).
    { destruct (store output (gray_index (wrap32 a.1) (wrap32 a.2) w) ga);
        [rewrite !bind_option_Some; apply Hb|reflexivity]. }
    rewrite store_store_commute by exact Hne.
    destruct (store output (gray_index (wrap32 b.1) (wrap32 b.2) w) gb);
      [rewrite !bind_option_Some; symmetry; apply Ha|reflexivity].
Qed.

Lemma run_items_permutation (fc : F32.fp_contract) (input : buffer)
    (w h c : Z) (items items' : list (Z * Z)) :
  items ≡ₚ items' ->
  NoDup ((fun id : Z * Z => gray_index (wrap32 id.1) (wrap32 id.2) w)
           <$> items) ->
  forall output,
    run_items fc input w h c items output
    = run_items fc input w h c items' output.
Proof.
  induction 1 as [|a l l' Hp IH|a b l|l l' l'' Hp1 IH1 Hp2 IH2];
    intros Hnd output.
  - reflexivity.
  - rewrite fmap_cons in Hnd. apply NoDup_cons in Hnd as [_ Hnd].
    rewrite !run_items_cons.
    destruct (rgb_to_gray fc input output w h c a.1 a.2) as [out|];
      [rewrite !bind_option_Some; apply IH, Hnd|reflexivity].
  - rewrite !fmap_cons in Hnd.
    apply NoDup_cons in Hnd as [Hab Hnd].
    assert (Hne : gray_index (wrap32 b.1) (wrap32 b.2) w
                  <> gray_index (wrap32 a.1) (wrap32 a.2) w).
    { intros Heq. apply Hab. rewrite <- Heq. apply list_elem_of_here. }
    rewrite !run_items_cons.
    pose proof (work_items_commute fc input output w h c a b) as Hc.
    destruct (rgb_to_gray fc input output w h c a.1 a.2) as [oa|] eqn:Ea,
             (rgb_to_gray fc input output w h c b.1 b.2) as [ob|] eqn:Eb;
      rewrite ?bind_option_Some, ?bind_option_None in *;
      rewrite ?run_items_cons.
    + rewrite <- Hc by congruence.
      destruct (rgb_to_gray fc input oa w h c b.1 b.2); reflexivity.
    + rewrite Hc by congruence. reflexivity.
    + rewrite <- Hc by congruence. reflexivity.
    + reflexivity.
  - rewrite IH1 by exact Hnd. apply IH2.
    rewrite <- Hp1. exact Hnd.
Qed.

(** X2.  The runtime fixes no order among the work-items of a launch.  In
    whichever order the work-items of the index space of an image run,
    the output buffer ends up the same (or the launch is undefined in
    every order): no two work-items write to the same byte. *)
Theorem launch_order_irrelevant (fc : F32.fp_contract)
    (input output : buffer) (w h c : Z) (items : list (Z * Z)) :
  0 < w -> 0 < h -> w * h <= INT_MAX ->
  items ≡ₚ work_items w h ->
  run_items fc input w h c items output
  = run_ndrange fc input output w h c w h.
Proof.
  intros Hw Hh Hfit Hp. unfold run_ndrange. symmetry.
  apply run_items_permutation; [symmetry; exact Hp|].
  assert (Heq : (fun id : Z * Z => gray_index (wrap32 id.1) (wrap32 id.2) w)
                  <$> work_items w h
                = seqZ 0 (w * h)).
  { rewrite <- gray_indices by assumption.
    apply Forall_fmap_ext, Forall_forall. intros [x y] Hin.
    apply elem_of_work_items in Hin as [Hx Hy]. cbn [fst snd].
    rewrite (wrap32_small x), (wrap32_small y)
      by (unfold fits_int, INT_MIN, INT_MAX in *; nia).
    reflexivity. }
  rewrite Heq. apply NoDup_seqZ.
Qed.

Lemma launch_order_irrelevant_witness :
  run_items F32.no_contraction [0; 0; 255; 255; 255; 255] 2 1 3
            [(1, 0); (0, 0)] [7; 7]
  = run_ndrange F32.no_contraction [0; 0; 255; 255; 255; 255] [7; 7]
                2 1 3 2 1.
Proof.
  apply (launch_order_irrelevant F32.no_contraction
           [0; 0; 255; 255; 255; 255] [7; 7] 2 1 3 [(1, 0); (0, 0)]).
  - lia.
  - lia.
  - unfold INT_MAX. lia.
  - apply Permutation_swap.
Defined.

End LaunchOrder.

(* ===================================================================== *)
(** * What a launch leaves in the output buffer *)
(* ===================================================================== *)

Section LaunchResult.
Import CInt Kernel Props.

Lemma run_items_nil (fc : F32.fp_contract) (input : buffer) (w h c : Z)
    (output : buffer) :
  run_items fc input w h c [] output = Some output.
Proof. reflexivity. Qed.

(** Two runs of the same work-items on output buffers of the same length
    are defined together, and agree at the offsets the work-items write
    and wherever the buffers agreed before. *)
Lemma run_items_agree (fc : F32.fp_contract) (input : buffer)
    (w h c : Z) (items : list (Z * Z)) :
  forall out1 out2 : buffer,
    length out1 = length out2 ->
    match run_items fc input w h c items out1,
          run_items fc input w h c items out2 with
    | Some o1, Some o2 =>
        length o1 = length out1 /\ length o2 = length out1
        /\ forall j,
             out1 !! j = out2 !! j
             \/ j ∈ (fun id : Z * Z =>
                       Z.to_nat (gray_index (wrap32 id.1) (wrap32 id.2) w))
                    <$> items ->
             o1 !! j = o2 !! j
    | None, None => True
    | _, _ => False
    end.
Proof.
  induction items as [|a items IH]; intros out1 out2 Hlen.
  - rewrite !run_items_nil. split; [reflexivity|]. split; [lia|].
    intros j [Hj|Hj]; [exact Hj|inversion Hj].
  - rewrite !run_items_cons.
    destruct (work_item_shape fc input w h c a.1 a.2) as [Ha|[g Ha]].
    + rewrite !Ha, !bind_option_None. exact I.
    + rewrite !Ha. unfold store. rewrite <- Hlen.
      set (o := gray_index (wrap32 a.1) (wrap32 a.2) w).
      destruct ((0 <=? o) && (o <? Z.of_nat (length out1))) eqn:Hb;
        [|rewrite !bind_option_None; exact I].
      apply andb_true_iff in Hb as [Hlo Hhi].
      apply Z.leb_le in Hlo. apply Z.ltb_lt in Hhi.
      rewrite !bind_option_Some.
      specialize (IH (<[Z.to_nat o := g]> out1) (<[Z.to_nat o := g]> out2)).
      rewrite !length_insert in IH. specialize (IH Hlen).
      destruct (run_items fc input w h c items (<[Z.to_nat o := g]> out1))
        as [o1|],
        (run_items fc input w h c items (<[Z.to_nat o := g]> out2))
        as [o2|]; try exact IH.
      destruct IH as (H1 & H2 & Hj).
      split; [exact H1|]. split; [exact H2|].
      intros j Hwhere. apply Hj.
      destruct (decide (j = Z.to_nat o)) as [->|Hne].
      * left. rewrite !list_lookup_insert_eq by lia. reflexivity.
      * rewrite !list_lookup_insert_ne by congruence.
        destruct Hwhere as [Heq|Hin]; [left; exact Heq|right].
        rewrite fmap_cons in Hin. apply elem_of_cons in Hin as [Heq|Hin];
          [contradiction|exact Hin].
Qed.

(** X3.  The output buffer is created without initial contents.  What the
    launch over the index space of an image leaves in it does not depend
    on the bytes it held before: every byte of the buffer is written. *)
Theorem launch_ignores_initial_output (fc : F32.fp_contract)
    (input out1 out2 : buffer) (w h c : Z) :
  0 < w -> 0 < h -> w * h <= INT_MAX ->
  Z.of_nat (length out1) = w * h ->
  Z.of_nat (length out2) = w * h ->
  run_ndrange fc input out1 w h c w h
  = run_ndrange fc input out2 w h c w h.
Proof.
  intros Hw Hh Hfit H1 H2. unfold run_ndrange.
  pose proof (run_items_agree fc input w h c (work_items w h) out1 out2)
    as Ha.
  assert (Hlen : length out1 = length out2) by lia.
  specialize (Ha Hlen).
  destruct (run_items fc input w h c (work_items w h) out1) as [o1|],
           (run_items fc input w h c (work_items w h) out2) as [o2|];
    try contradiction; [|reflexivity].
  destruct Ha as (L1 & L2 & Hj). f_equal.
  apply list_eq. intros j.
  destruct (decide (j < length out1)%nat) as [Hin|Hout].
  - apply Hj. right.
    apply list_elem_of_fmap.
    exists (Z.of_nat j mod w, Z.of_nat j / w). cbn [fst snd].
    assert (Hx : 0 <= Z.of_nat j mod w < w) by (apply Z.mod_pos_bound; lia).
    assert (Hy : 0 <= Z.of_nat j / w < h).
    { split; [apply Z.div_pos; lia|].
      apply Z.div_lt_upper_bound; lia. }
    split; [|apply elem_of_work_items; split; assumption].
    rewrite (wrap32_small (Z.of_nat j mod w)),
            (wrap32_small (Z.of_nat j / w))
      by (unfold fits_int, INT_MIN, INT_MAX in *; nia).
    destruct (gray_index_exact w h (Z.of_nat j mod w) (Z.of_nat j / w))
      as [Hg _]; try assumption.
    rewrite Hg.
    pose proof (Z.div_mod (Z.of_nat j) w) as Hdm. lia.
  - rewrite !lookup_ge_None_2 by lia. reflexivity.
Qed.

Lemma launch_ignores_initial_output_witness :
  run_ndrange F32.no_contraction [0; 0; 255; 255; 255; 255] [7; 9] 2 1 3 2 1
  = run_ndrange F32.no_contraction [0; 0; 255; 255; 255; 255] [0; 0]
                2 1 3 2 1.
Proof.
  apply (launch_ignores_initial_output F32.no_contraction
           [0; 0; 255; 255; 255; 255] [7; 9] [0; 0] 2 1 3).
  - lia.
  - lia.
  - unfold INT_MAX. lia.
  - reflexivity.
  - reflexivity.
Defined.






(** X5.  The byte of a pixel lies between its channels: it is at most the
    largest of the three, and at least the smallest, except that a pixel
    whose three channels are equal can come out one below them, as
    (37, 37, 37) does, which gives 36. *)
Theorem gray_between_channels (fc : F32.fp_contract) (red green blue : Z) :
  is_uchar red -> is_uchar green -> is_uchar blue ->
  exists gray,
    luma fc red green blue = Some gray
    /\ Z.min red (Z.min green blue) - 1 <= gray
       <= Z.max red (Z.max green blue)
    /\ (~ (red = green /\ green = blue) ->
        Z.min red (Z.min green blue) <= gray)
    /\ luma F32.no_contraction 37 37 37 = Some 36.
Proof.
  intros Hr Hg Hb.
  destruct (luma_near_exact fc red green blue Hr Hg Hb)
    as (gray & Hl & _ & _ & Hlow & Hexact).
  exists gray. split; [exact Hl|].
  unfold exact_luma, is_uchar in *.
  split; [|split].
  - Z.div_mod_to_equations. lia.
  - intros Hne.
    destruct (Z.eq_dec ((299 * red + 587 * green + 114 * blue) mod 1000) 0)
      as [Hz|Hnz].
    + Z.div_mod_to_equations. lia.
    + rewrite (Hexact Hnz). Z.div_mod_to_equations. lia.
  - vm_compute. reflexivity.
Qed.

Lemma gray_between_channels_witness :
  exists gray,
    luma F32.no_contraction 10 200 30 = Some gray /\ 10 <= gray <= 200.
Proof.
  destruct (gray_between_channels F32.no_contraction 10 200 30)
    as (gray & Hl & _ & Hmin & _);
    [unfold is_uchar; lia | unfold is_uchar; lia | unfold is_uchar; lia|].
  exists gray. split; [exact Hl|].
  vm_compute in Hl. injection Hl as <-. lia.
Defined.

(** X1.  The launch over an image of at least three channels, pixel by
    pixel: the byte at offset [y*width + x] of the output is the byte
    the kernel computes from the bytes at [(y*width + x)*channels] and
    the two after it, taken as blue, green and red, and it is the
    integer part of the exact weighted sum or one below. *)
Theorem launch_output_pixels (fc : F32.fp_contract)
    (input output : buffer) (w h c : Z) :
  0 < w -> 0 < h -> 3 <= c -> w * h * c <= INT_MAX ->
  Z.of_nat (length input) = w * h * c ->
  Forall is_uchar input ->
  Z.of_nat (length output) = w * h ->
  exists out',
    run_ndrange fc input output w h c w h = Some out'
    /\ Z.of_nat (length out') = w * h
    /\ forall x y, 0 <= x < w -> 0 <= y < h ->
         exists blue green red gray,
           input !! Z.to_nat ((y * w + x) * c) = Some blue
           /\ input !! Z.to_nat ((y * w + x) * c + 1) = Some green
           /\ input !! Z.to_nat ((y * w + x) * c + 2) = Some red
           /\ luma fc red green blue = Some gray
           /\ out' !! Z.to_nat (y * w + x) = Some gray
           /\ exact_luma red green blue - 1 <= gray
              <= exact_luma red green blue.
Proof.
  intros Hw Hh Hc Hfit Hlen Hbytes Hout.
  destruct (image_is_converted fc input output w h c)
    as (out' & Hrun & Hlen' & Hpix); try assumption.
  exists out'. split; [exact Hrun|]. split; [exact Hlen'|].
  intros x y Hx Hy.
  destruct (pixel_gray_defined fc input w h c x y)
    as (blue & green & red & gray & Lb & Lg & Lr & Hl & Hp & Hnear);
    try assumption.
  destruct (Hpix x y Hx Hy) as (gray' & Ho & Hp').
  rewrite Hp in Hp'. injection Hp' as <-.
  destruct (pixel_index_exact w h c x y) as [_ Hidx]; try lia.
  unfold iadd in Lg, Lr.
  rewrite wrap32_small in Lg, Lr
    by (unfold fits_int, INT_MIN, INT_MAX in *; nia).
  assert (Hload : forall i v, load input i = Some v ->
                              input !! Z.to_nat i = Some v).
  { intros i v Hv. unfold load in Hv.
    destruct (i <? 0); [discriminate Hv|exact Hv]. }
  exists blue, green, red, gray.
  split; [apply Hload, Lb|]. split; [apply Hload, Lg|].
  split; [apply Hload, Lr|]. split; [exact Hl|].
  split; [exact Ho|exact Hnear].
Qed.

Lemma launch_output_pixels_witness :
  exists out',
    run_ndrange F32.no_contraction [0; 0; 255; 255; 255; 255] [7; 7]
                2 1 3 2 1 = Some out'
    /\ Z.of_nat (length out') = 2 * 1.
Proof.
  destruct (launch_output_pixels F32.no_contraction
              [0; 0; 255; 255; 255; 255] [7; 7] 2 1 3)
    as (out' & Hrun & Hlen & _).
  - lia.
  - lia.
  - lia.
  - unfold INT_MAX. lia.
  - reflexivity.
  - repeat constructor; unfold is_uchar; lia.
  - reflexivity.
  - exists out'. split; [exact Hrun|exact Hlen].
Defined.

End LaunchResult.

Section ExtraChannels.
Import CInt Kernel Props.

(** X6.  Only the first three bytes of a pixel are read.  Two images of the
    same size that agree on the first three bytes of every pixel (and
    may differ in a fourth, as the alpha of a 32-bit bitmap) give the
    same output. *)
Theorem extra_channels_ignored (fc : F32.fp_contract)
    (input1 input2 output : buffer) (w h c : Z) :
  0 < w -> 0 < h -> 3 <= c -> w * h * c <= INT_MAX ->
  Z.of_nat (length input1) = w * h * c ->
  Z.of_nat (length input2) = w * h * c ->
  Forall is_uchar input1 -> Forall is_uchar input2 ->
  Z.of_nat (length output) = w * h ->
  (forall p k, 0 <= p < w * h -> 0 <= k < 3 ->
     input1 !! Z.to_nat (p * c + k) = input2 !! Z.to_nat (p * c + k)) ->
  run_ndrange fc input1 output w h c w h
  = run_ndrange fc input2 output w h c w h.
Proof.
  intros Hw Hh Hc Hfit Hlen1 Hlen2 Hb1 Hb2 Hout Hsame.
  assert (Hwh : w * h <= INT_MAX) by nia.
  destruct (image_is_converted fc input1 output w h c)
    as (o1 & Hrun1 & Hl1 & Hpix1); try assumption.
  destruct (image_is_converted fc input2 output w h c)
    as (o2 & Hrun2 & Hl2 & Hpix2); try assumption.
  rewrite Hrun1, Hrun2. f_equal. apply list_eq. intros j.
  destruct (decide (Z.of_nat j < w * h)) as [Hin|Hge].
  - set (x := Z.of_nat j mod w). set (y := Z.of_nat j / w).
    assert (Hx : 0 <= x < w) by (apply Z.mod_pos_bound; lia).
    assert (Hy : 0 <= y < h).
    { split; [apply Z.div_pos; lia|].
      apply Z.div_lt_upper_bound; lia. }
    assert (Hj : j = Z.to_nat (y * w + x)).
    { pose proof (Z.div_mod (Z.of_nat j) w) as Hdm. subst x y. lia. }
    destruct (Hpix1 x y Hx Hy) as (g1 & Ho1 & Hp1).
    destruct (Hpix2 x y Hx Hy) as (g2 & Ho2 & Hp2).
    rewrite Hj, Ho1, Ho2, <- Hp1, <- Hp2.
    assert (Hp : 0 <= y * w + x < w * h) by nia.
    assert (Hload : forall k, 0 <= k < 3 ->
              load input1 ((y * w + x) * c + k)
              = load input2 ((y * w + x) * c + k)).
    { intros k Hk. unfold load.
      destruct (Z.ltb_spec ((y * w + x) * c + k) 0); [reflexivity|].
      apply Hsame; assumption. }
    pose proof (Hload 0) as H0. rewrite Z.add_0_r in H0.
    unfold pixel_gray. cbv zeta.
    rewrite H0, (Hload 1), (Hload 2) by lia. reflexivity.
  - rewrite !lookup_ge_None_2 by lia. reflexivity.
Qed.

Lemma extra_channels_ignored_witness :
  run_ndrange F32.no_contraction [10; 20; 30; 255] [0] 1 1 4 1 1
  = run_ndrange F32.no_contraction [10; 20; 30; 0] [0] 1 1 4 1 1.
Proof.
  apply (extra_channels_ignored F32.no_contraction
           [10; 20; 30; 255] [10; 20; 30; 0] [0] 1 1 4).
  - lia.
  - lia.
  - lia.
  - unfold INT_MAX. lia.
  - reflexivity.
  - reflexivity.
  - repeat constructor; unfold is_uchar; lia.
  - repeat constructor; unfold is_uchar; lia.
  - reflexivity.
  - intros p k Hp Hk.
    assert (p = 0) as -> by lia.
    assert (k = 0 \/ k = 1 \/ k = 2) as [->|[->| ->]] by lia; reflexivity.
Defined.

End ExtraChannels.

(* ===================================================================== *)
(** * Runs of the host programs *)
(* ===================================================================== *)

Section RunFacts.
Import Host CInt Props.

(** One step of a run kept in hypothesis [Hr]: a constant test is
    decided, a test on a status is split (or rewritten when it was split
    before), or the next call is unfolded. *)
Ltac run_step Hr :=
  first
    [ progress (
        change (CL_INVALID_MEM_OBJECT =? CL_SUCCESS) with false in Hr;
        change (CL_INVALID_VALUE =? CL_SUCCESS) with false in Hr;
        change (CL_SUCCESS =? CL_SUCCESS) with true in Hr;
        rewrite ?Z.ltb_irrefl in Hr;
        cbv beta iota zeta in Hr)
    | match type of Hr with
      | context [if ?b then _ else _] =>
          match goal with
          | H : b = _ |- _ => rewrite H in Hr
          | _ => let E := fresh "E" in destruct b eqn:E; rewrite ?E in Hr
          end
      end
    | rewrite bind_loadBMP in Hr | rewrite bind_checkError in Hr
    | rewrite bind_checkError_docker in Hr | rewrite bind_create in Hr
    | rewrite bind_clCreateBuffer in Hr | rewrite bind_write in Hr
    | rewrite bind_read in Hr | rewrite bind_ndrange in Hr
    | rewrite bind_build in Hr | rewrite bind_saveBMP in Hr
    | rewrite bind_stbi_write_jpg in Hr | rewrite bind_imwrite in Hr
    | rewrite bind_release in Hr | rewrite bind_emit in Hr
    | rewrite bind_return in Hr ].

Ltac run_from Hr :=
  unfold main, main_bmp, main_stb, main_ocv in Hr;
  cbn [runtime output_writable] in *;
  repeat run_step Hr.

(** All the paths of [main p env], for any program [p]. *)
Ltac run_cases p env :=
  let r := fresh "r" in
  let Hr := fresh "Hr" in
  let rt := fresh "rt" in
  let wr := fresh "wr" in
  remember (main p env) as r eqn:Hr;
  destruct env as [rt wr];
  destruct p as [[?f|]|[?f|]|[?f|]];
  run_from Hr;
  subst r.

(** All the paths of [main p env], for a given program [p]. *)
Ltac run_program p env :=
  let r := fresh "r" in
  let Hr := fresh "Hr" in
  let rt := fresh "rt" in
  let wr := fresh "wr" in
  remember (main p env) as r eqn:Hr;
  destruct env as [rt wr];
  run_from Hr;
  subst r.

(** The tests met on a path, as equations and disequations. *)
Ltac status_facts :=
  repeat match goal with
    | H : (_ =? _) = true |- _ => apply Z.eqb_eq in H
    | H : (_ =? _) = false |- _ => apply Z.eqb_neq in H
    | H : (_ <? _) = true |- _ => apply Z.ltb_lt in H
    | H : (_ <? _) = false |- _ => apply Z.ltb_ge in H
    | H : negb _ || negb _ = false |- _ => apply magic_ok in H
    end;
  unfold CL_SUCCESS, CL_INVALID_VALUE, CL_INVALID_MEM_OBJECT in *.

Ltac observe :=
  cbn -[device_output error_line success_line build_log_text to_size_t
        imul set_kernel_args Z.ltb Z.mul Z.div total nl String.append] in *.

Ltac run_paths p env :=
  run_cases p env; status_facts; observe.

(** C8.  If any step of the pipeline reports an error, the run writes no
    output file and ends with a non-zero status, which is 1 when the
    image was loaded; a run that writes a file ends with status 0, prints
    the confirmation and met no error; in particular a platform without
    GPU device ends the run with status 1 and no file. *)
Theorem failure_leaves_no_file (p : program) (env : environment) :
  let r := main p env in
  (pipeline_failure (runtime env) ->
   files_of (trace r) = [] /\ exit_status r <> 0
   /\ (loaded p -> exit_status r = 1))
  /\ (files_of (trace r) = []
      \/ (exit_status r = 0 /\ stdout_of (trace r) = [success_line]
          /\ ~ pipeline_failure (runtime env)))
  /\ (loaded p ->
      platform_status (runtime env) = CL_SUCCESS ->
      device_status (runtime env) = CL_DEVICE_NOT_FOUND ->
      exit_status r = 1 /\ files_of (trace r) = []).
Proof.
  intros r; subst r. unfold CL_DEVICE_NOT_FOUND.
  run_paths p env; unfold pipeline_failure.
  all: split; [|split].
  all: try solve [ intros; repeat split;
                   first [reflexivity | lia | tauto | discriminate] ].
  all: try solve [ left; reflexivity ].
  all: right; repeat split; try reflexivity; lia.
Qed.

Lemma failure_leaves_no_file_witness :
  exit_status (main (run_bmp (Some Sample.red_bmp))
                    (Sample.on Sample.no_gpu)) = 1
  /\ files_of (trace (main (run_bmp (Some Sample.red_bmp))
                           (Sample.on Sample.no_gpu))) = [].
Proof.
  apply (failure_leaves_no_file (run_bmp (Some Sample.red_bmp))
                                (Sample.on Sample.no_gpu)).
  - split; reflexivity.
  - reflexivity.
  - reflexivity.
Defined.

(** C7.  The code accumulated with [|=] over the five [clSetKernelArg]
    calls is zero only when the five codes are.  So when the steps before
    them succeed and any one of the five calls reports a non-zero code, the
    check that follows prints its message with the accumulated code and
    the run ends with status 1, before any launch and without a file. *)
Theorem bind_failure_aborts (p : program) (env : environment) :
  loaded p ->
  reaches_bind (runtime env) ->
  arg_status (runtime env) 0 <> 0 \/ arg_status (runtime env) 1 <> 0
  \/ arg_status (runtime env) 2 <> 0 \/ arg_status (runtime env) 3 <> 0
  \/ arg_status (runtime env) 4 <> 0 ->
  let r := main p env in
  (forall e0 e1 e2 e3 e4,
     bind_status e0 e1 e2 e3 e4 = 0
     <-> e0 = 0 /\ e1 = 0 /\ e2 = 0 /\ e3 = 0 /\ e4 = 0)
  /\ set_kernel_args (runtime env) <> 0
  /\ exit_status r = 1
  /\ stderr_of (trace r)
     = [error_line (code_label (variant_of p)) "Setting kernel arguments"
                   (set_kernel_args (runtime env))]
  /\ launches (trace r) = []
  /\ files_of (trace r) = [].
Proof.
  intros Hl Hb Hsome r; subst r.
  split; [exact bind_status_zero_iff|].
  pose proof (bind_status_nonzero _ _ _ _ _ Hsome) as Hne.
  fold (set_kernel_args (runtime env)) in Hne.
  split; [exact Hne|].
  unfold reaches_bind, reaches_build in Hb.
  run_paths p env.
  all: try contradiction.
  all: try lia.
  all: repeat split; reflexivity.
Qed.

Lemma bind_failure_aborts_witness :
  exit_status (main (run_stb (Some Sample.red_stb))
                    (Sample.on Sample.bad_argument)) = 1.
Proof.
  apply (bind_failure_aborts (run_stb (Some Sample.red_stb))
                             (Sample.on Sample.bad_argument)).
  - exact I.
  - repeat split; reflexivity.
  - right; left. discriminate.
Defined.

(** C9.  When the steps before it succeed and [clBuildProgram] reports
    an error, the error stream receives the build log, verbatim between
    its heading and a newline, and after it the message of the failed
    step, and nothing else; the run ends with status 1 without a file. *)
Theorem build_failure_prints_log (p : program) (env : environment) :
  loaded p ->
  reaches_build (runtime env) ->
  build_status (runtime env) <> CL_SUCCESS ->
  let r := main p env in
  stderr_of (trace r)
  = [build_log_text (build_log (runtime env));
     error_line (code_label (variant_of p)) "Building program"
                (build_status (runtime env))]
  /\ build_log_text (build_log (runtime env))
     = "Build log:" +:+ nl +:+ build_log (runtime env) +:+ nl
  /\ exit_status r = 1
  /\ files_of (trace r) = [].
Proof.
  intros Hl Hb Hf r; subst r. unfold reaches_build in Hb.
  run_paths p env.
  all: try contradiction.
  all: try lia.
  all: repeat split; reflexivity.
Qed.

Lemma build_failure_prints_log_witness :
  stderr_of (trace (main (run_ocv (Some Sample.red_mat))
                         (Sample.on Sample.broken_compiler)))
  = [build_log_text "<kernel>:1:1: error";
     error_line "error" "Building program" (-11)].
Proof.
  apply (build_failure_prints_log (run_ocv (Some Sample.red_mat))
                                  (Sample.on Sample.broken_compiler)).
  - exact I.
  - repeat split; reflexivity.
  - discriminate.
Defined.



(** C5, as the programs have it.  A run that ends with status 0 created
    context, queue, program, input buffer, output buffer and kernel, in
    this order, and released kernel, program, input buffer, output
    buffer, queue and context, in this order: each object once, the
    context last.  A run that ends with another status released
    nothing. *)
Theorem release_discipline (p : program) (env : environment) :
  let r := main p env in
  (exit_status r = 0
   /\ created (trace r) = creation_order
   /\ released (trace r) = release_order)
  \/ (exit_status r <> 0 /\ released (trace r) = []).
Proof.
  intros r; subst r.
  run_paths p env.
  all: first
    [ right; split; [discriminate|reflexivity]
    | left; repeat split; reflexivity ].
Qed.

(** C5, as the specification has it, fails on the success path: the
    program is released before the buffers, and the input buffer before
    the output buffer. *)
Lemma reverse_release_counterexample :
  ~ reverse_release (main (run_bmp (Some Sample.red_bmp))
                          (Sample.on Sample.healthy)).
Proof. unfold reverse_release. cbn. discriminate. Qed.

(** On a failure path the objects created so far are not released. *)
Lemma failure_path_releases_nothing :
  created (trace (main (run_bmp (Some Sample.red_bmp))
                       (Sample.on Sample.broken_compiler)))
  = [Context; Queue; Program]
  /\ released (trace (main (run_bmp (Some Sample.red_bmp))
                          (Sample.on Sample.broken_compiler))) = [].
Proof. split; reflexivity. Qed.


(** C3 fails in the OpenCV program.  For a picture of two by two
    pixels the output buffer is created with [total() / channels], one
    byte instead of four, and the readback of the four bytes of the
    result image is rejected: the run ends with status 1 and writes no
    file. *)
Theorem ocv_output_buffer_short :
  let r := main (run_ocv (Some Sample.red_mat))
                (Sample.on Sample.healthy) in
  cols Sample.red_mat * rows Sample.red_mat = 4
  /\ output_allocations (trace r) = [1]
  /\ readbacks (trace r) = []
  /\ stderr_of (trace r)
     = [error_line "error" "Reading from output buffer" CL_INVALID_VALUE]
  /\ exit_status r = 1
  /\ files_of (trace r) = [].
Proof. cbv zeta. repeat split; reflexivity. Qed.

(** X14.  For every picture [cv::imread] returns, the OpenCV program
    creates the output buffer with [total() / channels] bytes: with two
    channels or more it is smaller than the image, the readback of the
    image is rejected, and no run ends with status 0. *)
Lemma ocv_never_succeeds (m : Mat) (env : environment) :
  0 < cols m -> 0 < rows m -> rows m * cols m < 2 ^ 64 ->
  2 <= mat_channels m < 2 ^ 64 ->
  let r := main (run_ocv (Some m)) env in
  Forall (fun n => n = rows m * cols m / mat_channels m
                   /\ n < rows m * cols m)
         (output_allocations (trace r))
  /\ exit_status r <> 0.
Proof.
  intros Hc Hr Hfit Hch r; subst r.
  assert (Hlt : rows m * cols m / mat_channels m < rows m * cols m)
    by (apply Z.div_lt; nia).
  assert (Ht : total m = rows m * cols m)
    by (unfold total, to_size_t; apply Z.mod_small; nia).
  assert (Hs : to_size_t (mat_channels m) = mat_channels m)
    by (unfold to_size_t; apply Z.mod_small; lia).
  assert (Hr' : to_size_t (rows m * cols m) = rows m * cols m)
    by (unfold to_size_t; apply Z.mod_small; nia).
  run_program (run_ocv (Some m)) env; status_facts; observe.
  all: rewrite ?Ht, ?Hs, ?(Z.mul_comm (cols m)), ?Hr' in *.
  all: try lia.
  all: split; [repeat constructor; lia|discriminate].
Qed.

(** X13.  In the BMP and stb_image programs the output buffer, the
    readback and the buffer handed to the writer all have width*height
    bytes. *)
Lemma pixel_count_sizes (p : program) (env : environment) (w h c : Z) :
  variant_of p <> OCV ->
  geometry p = Some (w, h, c) ->
  0 < w -> 0 < h -> w * h <= INT_MAX ->
  let r := main p env in
  Forall (fun n => n = w * h) (output_allocations (trace r))
  /\ Forall (fun n => n = w * h) (readbacks (trace r))
  /\ (exit_status r = 0 ->
      output_allocations (trace r) = [w * h]
      /\ readbacks (trace r) = [w * h]).
Proof.
  intros Hv Hg Hw Hh Hfit r; subst r.
  assert (Hs : to_size_t (imul w h) = w * h).
  { unfold imul. rewrite wrap32_small
      by (unfold fits_int, INT_MIN, INT_MAX in *; nia).
    apply to_size_t_small. nia. }
  run_paths p env.
  all: try discriminate Hg.
  all: try (exfalso; apply Hv; reflexivity).
  all: injection Hg as <- <- <-.
  all: rewrite ?Hs.
  all: repeat split; repeat constructor; try discriminate.
Qed.

(** C4 fails in the stb_image program.  [stbi_load] stores red first,
    the kernel takes the first byte for blue: a red pixel comes out as
    29, the value of a blue one, where the BMP program, whose loader
    stores blue first, gives 76. *)
Theorem stb_channel_order_mismatch :
  stb_data Sample.red_stb = staged_pixel (loader_order STB) 255 0 0
  /\ written_images
       (trace (main (run_stb (Some Sample.red_stb))
                    (Sample.on Sample.healthy)))
     = [Some [29]]
  /\ Kernel.luma F32.no_contraction 255 0 0 = Some 76
  /\ Kernel.luma F32.no_contraction 0 0 255 = Some 29
  /\ take 3 (pixel_array Sample.red_bmp)
     = staged_pixel (loader_order BMP) 255 0 0
  /\ written_images
       (trace (main (run_bmp (Some Sample.red_bmp))
                    (Sample.on Sample.healthy)))
     = [Some [76]].
Proof. repeat split; vm_compute; reflexivity. Qed.




(** ** Further properties of the runs *)

Import Steps.

(** X7.  Upload, launch, readback and save happen in this order, each at most
    once, and none is skipped: a run that ends early did the first steps
    of the sequence. *)
Theorem pipeline_order (p : program) (env : environment) :
  steps (trace (main p env)) `prefix_of` [Upload; Launch; Readback; Save].
Proof.
  run_paths p env.
  all: eexists; reflexivity.
Qed.

(** X8.  The kernel is launched only after every step before the launch
    succeeded: the six objects exist, the input was uploaded in full to
    the buffer created for it, and the five arguments were bound. *)
Theorem launch_needs_setup (p : program) (env : environment) :
  let r := main p env in
  launches (trace r) <> [] ->
  loaded p
  /\ reaches_bind (runtime env)
  /\ set_kernel_args (runtime env) = 0
  /\ created (trace r) = creation_order
  /\ exists n, input_allocations (trace r) = [n] /\ uploads (trace r) = [n].
Proof.
  intros r; subst r. unfold reaches_bind, reaches_build.
  run_paths p env.
  all: intros Hl; try (exfalso; apply Hl; reflexivity).
  all: repeat split; try assumption; try reflexivity; try lia.
  all: eexists; split; reflexivity.
Qed.

Lemma launch_needs_setup_witness :
  uploads (trace (main (run_stb (Some Sample.red_stb))
                       (Sample.on Sample.healthy))) = [3].
Proof.
  destruct (launch_needs_setup (run_stb (Some Sample.red_stb))
              (Sample.on Sample.healthy))
    as (_ & _ & _ & _ & n & Ha & Hu).
  - discriminate.
  - rewrite Hu. f_equal. vm_compute in Ha. congruence.
Defined.

(** X9.  The stb_image and OpenCV programs check the creation of the two
    buffers once, after the second: the status of the first is
    overwritten.  When the input buffer cannot be created, they report
    the status of the output buffer if that failed too, and otherwise go
    on to upload to a null buffer and report that step with
    CL_INVALID_MEM_OBJECT; the BMP program reports the creation of the
    input buffer with its status. *)
Theorem input_buffer_failure_report (p : program) (env : environment) :
  loaded p ->
  reaches_build (runtime env) ->
  build_status (runtime env) = 0 ->
  input_buffer_status (runtime env) <> 0 ->
  let r := main p env in
  exit_status r = 1
  /\ input_allocations (trace r) = []
  /\ steps (trace r) = []
  /\ stderr_of (trace r)
     = [match variant_of p with
        | BMP => error_line "Error" "Creating input buffer"
                            (input_buffer_status (runtime env))
        | v =>
            if output_buffer_status (runtime env) =? 0
            then error_line (code_label v) "Writing to input buffer"
                            CL_INVALID_MEM_OBJECT
            else error_line (code_label v) "Creating buffers"
                            (output_buffer_status (runtime env))
        end].
Proof.
  intros Hl Hb Hbuild Hin r; subst r. unfold reaches_build in Hb.
  run_paths p env.
  all: try contradiction.
  all: try lia.
  all: repeat split; try reflexivity.
  all: cbn [variant_of code_label].
  all: match goal with
       | |- context [?a =? 0] =>
           first [ replace (a =? 0) with true by (symmetry; apply Z.eqb_eq; lia)
                 | replace (a =? 0) with false by (symmetry; apply Z.eqb_neq; lia) ]
       | _ => idtac
       end.
  all: reflexivity.
Qed.

Lemma ocv_never_succeeds_witness :
  exit_status (main (run_ocv (Some Sample.red_mat))
                    (Sample.on Sample.healthy)) <> 0.
Proof.
  apply (ocv_never_succeeds Sample.red_mat (Sample.on Sample.healthy)).
  - reflexivity.
  - reflexivity.
  - reflexivity.
  - split; [discriminate|reflexivity].
Defined.

Lemma pixel_count_sizes_witness :
  Forall (fun n => n = 1 * 1)
         (readbacks (trace (main (run_bmp (Some Sample.red_bmp))
                                 (Sample.on Sample.healthy)))).
Proof.
  apply (pixel_count_sizes (run_bmp (Some Sample.red_bmp))
           (Sample.on Sample.healthy) 1 1 3).
  - discriminate.
  - reflexivity.
  - lia.
  - lia.
  - unfold INT_MAX. lia.
Defined.

Lemma input_buffer_failure_report_witness :
  stderr_of (trace (main (run_stb (Some Sample.red_stb))
                         (Sample.on Sample.no_input_buffer)))
  = [error_line "Error" "Writing to input buffer" CL_INVALID_MEM_OBJECT].
Proof.
  apply (input_buffer_failure_report (run_stb (Some Sample.red_stb))
           (Sample.on Sample.no_input_buffer)).
  - exact I.
  - repeat split; reflexivity.
  - reflexivity.
  - discriminate.
Defined.

(** X10.  The stb_image and OpenCV programs do not look at the result of the
    call that writes the image.  When the output file cannot be created
    they still release the objects, print the confirmation and end with
    status 0 once the readback succeeded; the BMP program ends with
    status 1 and a message, and releases nothing. *)
Theorem image_write_is_not_checked (p : program) (env : environment) :
  output_writable env = false ->
  let r := main p env in
  files_of (trace r) = []
  /\ (readbacks (trace r) <> [] ->
      match variant_of p with
      | BMP =>
          exit_status r = 1
          /\ stderr_of (trace r)
             = ["Error: Unable to open file gray_image.bmp for writing."
                +:+ nl]
          /\ released (trace r) = []
      | _ =>
          exit_status r = 0
          /\ stdout_of (trace r) = [success_line]
          /\ released (trace r) = release_order
      end).
Proof.
  intros Hw r; subst r.
  run_paths p env.
  all: try discriminate Hw.
  all: split; [reflexivity|].
  all: intros Hread; try (exfalso; apply Hread; reflexivity).
  all: cbn [variant_of]; repeat split; reflexivity.
Qed.

Lemma image_write_is_not_checked_witness :
  exit_status (main (run_stb (Some Sample.red_stb))
                    (Sample.read_only Sample.healthy)) = 0.
Proof.
  destruct (image_write_is_not_checked (run_stb (Some Sample.red_stb))
              (Sample.read_only Sample.healthy)) as [_ H].
  - reflexivity.
  - apply H. discriminate.
Defined.



(** X19.  [saveBMP] writes [biSizeImage] bytes from the buffer it is handed,
    and [main] hands it the buffer of the readback, which has
    width*height bytes.  Whenever the bitmap has more bytes than pixels,
    as every bitmap of more than eight bits per pixel has, the write
    reads past the end of that buffer. *)
Theorem bmp_save_reads_past_buffer (f : bmp_file) (env : environment)
    (i : BmpFile.BMPInfoHeader) (data : list Z) :
  BmpFile.used_by_main i = info f ->
  0 < biWidth (info f) -> 0 < biHeight (info f) ->
  biWidth (info f) * biHeight (info f) <= INT_MAX ->
  biWidth (info f) * biHeight (info f) < biSizeImage (info f) ->
  let r := main (run_bmp (Some f)) env in
  written_images (trace r) = [Some data] ->
  Z.of_nat (length data) <= biWidth (info f) * biHeight (info f)
  /\ BmpFile.saved_bytes data i = None.
Proof.
  intros Hi Hw Hh Hfit Hbig r; subst r.
  assert (Hs : to_size_t (imul (biWidth (info f)) (biHeight (info f)))
               = biWidth (info f) * biHeight (info f)).
  { unfold imul. rewrite wrap32_small
      by (unfold fits_int, INT_MIN, INT_MAX in *; nia).
    apply to_size_t_small. nia. }
  assert (Hlen : forall input n m w h c d,
            device_output (runtime env) input n m w h c
              (biWidth (info f) * biHeight (info f)) = Some d ->
            Z.of_nat (length d) <= biWidth (info f) * biHeight (info f)).
  { intros input n m w h c d Hd. unfold device_output in Hd.
    destruct (Kernel.run_ndrange _ _ _ _ _ _ _ _) as [out|];
      [|discriminate Hd].
    rewrite bind_option_Some in Hd. injection Hd as <-.
    rewrite length_take. lia. }
  assert (Hover : Z.of_nat (length data)
                  <= biWidth (info f) * biHeight (info f) ->
                  BmpFile.saved_bytes data i = None).
  { intros Hd. unfold BmpFile.saved_bytes, BmpFile.fwrite.
    assert (Hsize : BmpFile.biSizeImage i = biSizeImage (info f))
      by (rewrite <- Hi; reflexivity).
    rewrite Hsize.
    destruct (Nat.leb_spec (Z.to_nat (biSizeImage (info f))) (length data));
      [lia|reflexivity]. }
  run_program (run_bmp (Some f)) env; status_facts; observe.
  all: intros Hfile; try discriminate Hfile.
  all: injection Hfile as Hfile; rewrite ?Hs in Hfile.
  all: apply Hlen in Hfile.
  all: split; [exact Hfile|apply Hover, Hfile].
Qed.

Lemma bmp_save_reads_past_buffer_witness :
  BmpFile.saved_bytes [76] (BmpFile.header_24 1 1) = None.
Proof.
  apply (bmp_save_reads_past_buffer Sample.red_bmp
           (Sample.on Sample.healthy) (BmpFile.header_24 1 1) [76]).
  - reflexivity.
  - reflexivity.
  - reflexivity.
  - discriminate.
  - reflexivity.
  - reflexivity.
Defined.




End RunFacts.

(* ===================================================================== *)
(** * The launch and the bounds of the accesses *)
(* ===================================================================== *)

Section LaunchAndBounds.
Import CInt Kernel Host Props.





End LaunchAndBounds.

(* ===================================================================== *)
(** * Loading and saving a bitmap *)
(* ===================================================================== *)

Section BmpFileFacts.
Import CInt Host BmpFile.

Lemma le_value_le_bytes (n : nat) (z : Z) :
  le_value (le_bytes n z) = z mod 256 ^ Z.of_nat n.
Proof.
  revert z. induction n as [|n IH]; intros z.
  - cbn. rewrite Z.mod_1_r. reflexivity.
  - cbn [le_bytes le_value]. rewrite IH.
    rewrite Nat2Z.inj_succ, Z.pow_succ_r by lia.
    rewrite Z.rem_mul_r by lia. reflexivity.
Qed.

Lemma length_le_bytes (n : nat) (z : Z) : length (le_bytes n z) = n.
Proof.
  revert z. induction n as [|n IH]; intros z; [reflexivity|].
  cbn. rewrite IH. reflexivity.
Qed.

Lemma Forall_le_bytes (n : nat) (z : Z) :
  Forall (fun b => 0 <= b <= 255) (le_bytes n z).
Proof.
  revert z. induction n as [|n IH]; intros z; constructor; [|apply IH].
  pose proof (Z.mod_pos_bound z 256). lia.
Qed.

(** A member is read back from the place its bytes were put at. *)
Lemma unsigned_at_member (before : list Z) (n : nat) (z : Z)
    (after : list Z) (offset : nat) :
  offset = length before ->
  unsigned_at (before ++ le_bytes n z ++ after) offset n
  = z mod 256 ^ Z.of_nat n.
Proof.
  intros ->. unfold unsigned_at.
  rewrite drop_app_length.
  rewrite take_app_length' by (symmetry; apply length_le_bytes).
  apply le_value_le_bytes.
Qed.

Lemma unsigned_member (n : nat) (z : Z) :
  0 <= z < 256 ^ Z.of_nat n -> z mod 256 ^ Z.of_nat n = z.
Proof. intros H. apply Z.mod_small, H. Qed.

Lemma int_member (z : Z) : fits_int z -> wrap32 (z mod 256 ^ 4) = z.
Proof.
  unfold fits_int, INT_MIN, INT_MAX, wrap32. intros H.
  change (256 ^ 4) with 4294967296. change (2 ^ 32) with 4294967296.
  change (2 ^ 31) with 2147483648.
  Z.div_mod_to_equations. lia.
Qed.

Lemma length_memory (junk : nat -> Z) (size : nat) :
  length (memory junk size) = size.
Proof. unfold memory. rewrite length_fmap. apply length_seq. Qed.

(** A read the file has all the bytes for does not depend on what the
    memory held. *)
Lemma fread_full (ptr : list Z) (size : nat) (got rest : list Z) :
  length got = size -> length ptr = size ->
  fread ptr size (got ++ rest) = got.
Proof.
  intros Hg Hp. unfold fread.
  rewrite take_app_length' by (symmetry; exact Hg).
  rewrite drop_ge by lia. apply app_nil_r.
Qed.

Lemma length_fread (ptr : list Z) (size : nat) (rest : list Z) :
  length ptr = size -> length (fread ptr size rest) = size.
Proof.
  intros Hp. unfold fread.
  rewrite length_app, length_drop, length_take. lia.
Qed.

Lemma length_header_bytes (h : BMPHeader) :
  length (header_bytes h) = sizeof_BMPHeader.
Proof. reflexivity. Qed.

Lemma length_info_bytes (i : BMPInfoHeader) :
  length (info_bytes i) = sizeof_BMPInfoHeader.
Proof. reflexivity. Qed.

(** Four bytes put together give back an [unsigned int], and an [int]
    after the conversion. *)
Lemma unsigned_of_bytes_4 (z : Z) :
  0 <= z < 2 ^ 32 ->
  le_value (le_bytes 4 z) = z.
Proof.
  intros H. rewrite le_value_le_bytes. apply Z.mod_small.
  change (256 ^ Z.of_nat 4) with (2 ^ 32). exact H.
Qed.

Lemma unsigned_of_bytes_2 (z : Z) :
  0 <= z < 2 ^ 16 ->
  le_value (le_bytes 2 z) = z.
Proof.
  intros H. rewrite le_value_le_bytes. apply Z.mod_small.
  change (256 ^ Z.of_nat 2) with (2 ^ 16). exact H.
Qed.

Lemma int_of_bytes (z : Z) :
  fits_int z -> wrap32 (le_value (le_bytes 4 z)) = z.
Proof.
  intros H. rewrite le_value_le_bytes. apply int_member, H.
Qed.

(** The members of an info header are read back from its bytes. *)
Lemma info_of_info_bytes (i : BMPInfoHeader) :
  in_range i -> info_of (info_bytes i) = i.
Proof.
  destruct i as [s w h p b c n x y u v].
  unfold in_range. cbn [biSize biWidth biHeight biPlanes biBitCount
    biCompression biSizeImage biXPelsPerMeter biYPelsPerMeter biClrUsed
    biClrImportant].
  intros (Hs & Hw & Hh & Hp & Hb & Hc & Hn & Hx & Hy & Hu & Hv).
  unfold info_of, info_bytes, int_at, unsigned_at.
  cbn [biSize biWidth biHeight biPlanes biBitCount
    biCompression biSizeImage biXPelsPerMeter biYPelsPerMeter biClrUsed
    biClrImportant le_bytes app drop take].
  repeat match goal with
    | |- context [le_value [?z mod 256; ?a; ?b; ?c]] =>
        change (le_value [z mod 256; a; b; c])
          with (le_value (le_bytes 4 z))
    | |- context [le_value [?z mod 256; ?a]] =>
        change (le_value [z mod 256; a]) with (le_value (le_bytes 2 z))
    end.
  rewrite !int_of_bytes by assumption.
  rewrite !unsigned_of_bytes_4, !unsigned_of_bytes_2 by assumption.
  reflexivity.
Qed.

(** The header [saveBMP] writes is read back as it was built. *)
Lemma header_of_saved_header (i : BMPInfoHeader) :
  header_of (header_bytes (saved_header i)) = saved_header i.
Proof.
  unfold header_of, header_bytes, unsigned_at, saved_header.
  cbn [bfType bfSize bfReserved1 bfReserved2 bfOffBits fst snd
       le_bytes app drop take].
  set (size := (Z.of_nat sizeof_BMPHeader + Z.of_nat sizeof_BMPInfoHeader
                + biSizeImage i) mod 2 ^ 32).
  assert (Hsize : 0 <= size < 2 ^ 32) by (apply Z.mod_pos_bound; lia).
  change (le_value [size mod 256; size / 256 mod 256;
                    size / 256 / 256 mod 256;
                    size / 256 / 256 / 256 mod 256])
    with (le_value (le_bytes 4 size)).
  rewrite unsigned_of_bytes_4 by exact Hsize.
  reflexivity.
Qed.

(** X16.  What [saveBMP] writes for a header whose members are in the range of
    their types, from a buffer that has the [biSizeImage] bytes: 54 bytes
    of headers, which start with 'B', 'M', and the bytes of the buffer.
    [loadBMP] reads the header and the bytes back from such a file,
    whatever the memory it reads into held. *)
Theorem save_load_round_trip (imageData : list Z) (i : BMPInfoHeader)
    (filename : string) (m : indeterminate) :
  in_range i ->
  biSizeImage i <= Z.of_nat (length imageData) ->
  exists bytes,
    saved_bytes imageData i = Some bytes
    /\ Z.of_nat (length bytes) = 54 + biSizeImage i
    /\ take 2 bytes = [66; 77]
    /\ saveBMP filename imageData i true
       = emit (WriteFile filename (Some bytes))
    /\ loadBMP filename (Some bytes) m
       = mret (take (Z.to_nat (biSizeImage i)) imageData, i).
Proof.
  intros Hrange Hlen.
  assert (Hn : 0 <= biSizeImage i < 2 ^ 32) by apply Hrange.
  set (n := Z.to_nat (biSizeImage i)).
  assert (Hfw : fwrite imageData n = Some (take n imageData)).
  { unfold fwrite. destruct (Nat.leb_spec n (length imageData)); [reflexivity|].
    subst n. lia. }
  exists (header_bytes (saved_header i) ++ info_bytes i ++ take n imageData).
  assert (Hsaved : saved_bytes imageData i
                   = Some (header_bytes (saved_header i) ++ info_bytes i
                           ++ take n imageData)).
  { unfold saved_bytes. fold n. rewrite Hfw. reflexivity. }
  split; [|split; [|split; [|split]]].
  - exact Hsaved.
  - rewrite !length_app, length_take, length_header_bytes,
      length_info_bytes.
    unfold sizeof_BMPHeader, sizeof_BMPInfoHeader. subst n. lia.
  - reflexivity.
  - unfold saveBMP. rewrite Hsaved. reflexivity.
  - unfold loadBMP.
    rewrite (fread_full _ _ (header_bytes (saved_header i)))
      by (first [apply length_header_bytes | apply length_memory]).
    rewrite header_of_saved_header.
    rewrite <- (length_header_bytes (saved_header i)), drop_app_length.
    rewrite (fread_full _ _ (info_bytes i))
      by (first [apply length_info_bytes | apply length_memory]).
    rewrite info_of_info_bytes by exact Hrange.
    cbv zeta. fold n.
    change (negb ((bfType (saved_header i)).1 =? 66)
            || negb ((bfType (saved_header i)).2 =? 77)) with false.
    cbv iota.
    change (Z.to_nat (bfOffBits (saved_header i))) with 54%nat.
    change 54%nat
      with (length (header_bytes (saved_header i)) + length (info_bytes i))%nat.
    rewrite app_assoc, <- length_app, drop_app_length.
    rewrite <- (app_nil_r (take n imageData)) at 1.
    rewrite fread_full; [reflexivity| |apply length_memory].
    rewrite length_take. subst n. lia.
Qed.

Lemma save_load_round_trip_witness :
  loadBMP "gray_image.bmp"
    (saved_bytes [0; 0; 255; 0; 9] (header_24 1 1))
    {| stack_header := fun _ => 7; stack_info := fun _ => 7;
       heap := fun _ => 7 |}
  = mret ([0; 0; 255; 0], header_24 1 1).
Proof.
  destruct (save_load_round_trip [0; 0; 255; 0; 9] (header_24 1 1)
              "gray_image.bmp"
              {| stack_header := fun _ => 7; stack_info := fun _ => 7;
                 heap := fun _ => 7 |})
    as (bytes & Hs & _ & _ & _ & Hl).
  - unfold in_range, fits_int.
    repeat split; vm_compute; first [reflexivity | discriminate].
  - vm_compute. discriminate.
  - rewrite Hs. exact Hl.
Defined.

(** X17.  [loadBMP] checks the two magic bytes and nothing else.  A file of at
    least 54 bytes that starts with 'B', 'M' is loaded whatever follows:
    the header is the one its bytes 14 to 53 spell, the buffer has
    [biSizeImage] bytes, and they are the bytes of the file from
    [bfOffBits] on when the file has that many; a file of at least 54
    bytes that starts otherwise ends the run with status 1. *)
Theorem loadBMP_outcome (filename : string) (bytes : list Z)
    (m : indeterminate) :
  (54 <= length bytes)%nat ->
  let i := info_of (take 40 (drop 14 bytes)) in
  let offset := Z.to_nat (unsigned_at bytes 10 4) in
  let size := Z.to_nat (biSizeImage i) in
  if decide (take 2 bytes = [66; 77])
  then exists imageData,
         loadBMP filename (Some bytes) m = mret (imageData, i)
         /\ length imageData = size
         /\ ((offset + size <= length bytes)%nat ->
             imageData = take size (drop offset bytes))
  else loadBMP filename (Some bytes) m
       = (emit (Stderr ("Error: Not a BMP file." +:+ nl));; exit 1).
Proof.
  intros Hlen i offset size.
  assert (Hsplit : bytes = take 14 bytes ++ take 40 (drop 14 bytes)
                           ++ drop 54 bytes).
  { rewrite <- (take_drop 14 bytes) at 1. f_equal.
    rewrite <- (take_drop 40 (drop 14 bytes)) at 1. f_equal.
    rewrite drop_drop. reflexivity. }
  assert (Hhdr : fread (memory (stack_header m) sizeof_BMPHeader)
                       sizeof_BMPHeader bytes = take 14 bytes).
  { rewrite Hsplit at 1. apply fread_full; [|apply length_memory].
    rewrite length_take. unfold sizeof_BMPHeader. lia. }
  assert (Hinfo : fread (memory (stack_info m) sizeof_BMPInfoHeader)
                        sizeof_BMPInfoHeader (drop sizeof_BMPHeader bytes)
                  = take 40 (drop 14 bytes)).
  { unfold sizeof_BMPHeader.
    rewrite <- (take_drop 40 (drop 14 bytes)) at 1.
    apply fread_full; [|apply length_memory].
    rewrite length_take, length_drop. unfold sizeof_BMPInfoHeader. lia. }
  assert (Hmagic : (bfType (header_of (take 14 bytes))).1
                   = unsigned_at bytes 0 1
                   /\ (bfType (header_of (take 14 bytes))).2
                      = unsigned_at bytes 1 1
                   /\ bfOffBits (header_of (take 14 bytes))
                      = unsigned_at bytes 10 4).
  { destruct bytes as [|b0 [|b1 [|b2 [|b3 [|b4 [|b5 [|b6 [|b7 [|b8 [|b9
      [|b10 [|b11 [|b12 [|b13 rest]]]]]]]]]]]]]]; cbn in Hlen; try lia.
    repeat split; reflexivity. }
  destruct Hmagic as (Hm1 & Hm2 & Hoff).
  unfold loadBMP. rewrite Hhdr, Hinfo. cbv zeta. fold i. fold size.
  rewrite Hm1, Hm2, Hoff. fold offset.
  destruct bytes as [|b0 [|b1 rest]]; cbn in Hlen; try lia.
  change (unsigned_at (b0 :: b1 :: rest) 0 1) with (b0 + 256 * 0).
  change (unsigned_at (b0 :: b1 :: rest) 1 1) with (b1 + 256 * 0).
  rewrite !Z.mul_0_r, !Z.add_0_r.
  change (take 2 (b0 :: b1 :: rest)) with [b0; b1].
  destruct (decide ([b0; b1] = [66; 77])) as [Heq|Hne].
  - injection Heq as -> ->. cbn [Z.eqb Pos.eqb negb orb].
    eexists. split; [reflexivity|]. split.
    + apply length_fread, length_memory.
    + intros Hall.
      rewrite <- (take_drop size (drop offset (66 :: 77 :: rest))) at 1.
      apply fread_full; [|apply length_memory].
      rewrite length_take, length_drop. cbn [length] in *. lia.
  - destruct (Z.eqb_spec b0 66) as [->|H0]; cbn [negb orb];
      [|reflexivity].
    destruct (Z.eqb_spec b1 77) as [->|H1]; cbn [negb orb];
      [|reflexivity].
    exfalso. apply Hne. reflexivity.
Qed.

Lemma loadBMP_outcome_witness :
  exit_status
    ('(_, _) ← loadBMP "image.bmp" (Some (replicate 54 0))
                 {| stack_header := fun _ => 66; stack_info := fun _ => 0;
                    heap := fun _ => 0 |};
     mret 0) = 1.
Proof.
  pose proof (loadBMP_outcome "image.bmp" (replicate 54 0)
                {| stack_header := fun _ => 66; stack_info := fun _ => 0;
                   heap := fun _ => 0 |}) as H.
  cbv zeta in H.
  destruct (decide (take 2 (replicate 54 0) = [66; 77])) as [Heq|Hne].
  - discriminate Heq.
  - rewrite H by (rewrite length_replicate; lia). reflexivity.
Defined.

(** X18.  The file is not checked for its length.  A file that ends after the
    14 bytes of its first header is loaded when it starts with 'B', 'M',
    and every member of the info header then is what the memory of
    [main] held: for any header there is a memory that yields it. *)
Theorem truncated_file_is_loaded (filename : string) (rest : list Z)
    (i : BMPInfoHeader) (m : indeterminate) :
  length rest = 12%nat ->
  in_range i ->
  (forall k, (k < 40)%nat -> info_bytes i !! k = Some (stack_info m k)) ->
  exists imageData,
    loadBMP filename (Some (66 :: 77 :: rest)) m = mret (imageData, i)
    /\ length imageData = Z.to_nat (biSizeImage i).
Proof.
  intros Hrest Hrange Hmem.
  assert (Hinfo : memory (stack_info m) sizeof_BMPInfoHeader = info_bytes i).
  { apply list_eq. intros k. unfold memory, sizeof_BMPInfoHeader.
    destruct (decide (k < 40)%nat) as [Hk|Hk].
    - rewrite Hmem by exact Hk.
      rewrite list_lookup_fmap, lookup_seq_lt by exact Hk. reflexivity.
    - rewrite !lookup_ge_None_2; [reflexivity| |].
      + rewrite length_info_bytes. unfold sizeof_BMPInfoHeader. lia.
      + rewrite length_fmap, length_seq. lia. }
  assert (Hhdr : fread (memory (stack_header m) sizeof_BMPHeader)
                       sizeof_BMPHeader (66 :: 77 :: rest)
                 = 66 :: 77 :: rest).
  { rewrite <- (app_nil_r (66 :: 77 :: rest)) at 1.
    apply fread_full; [|apply length_memory].
    cbn [length]. rewrite Hrest. reflexivity. }
  assert (Hread : fread (memory (stack_info m) sizeof_BMPInfoHeader)
                        sizeof_BMPInfoHeader
                        (drop sizeof_BMPHeader (66 :: 77 :: rest))
                  = info_bytes i).
  { rewrite drop_ge by (cbn [length]; rewrite Hrest; reflexivity).
    unfold fread. rewrite take_nil. cbn [length app drop]. exact Hinfo. }
  unfold loadBMP.
  rewrite Hhdr, Hread, info_of_info_bytes by exact Hrange.
  cbv zeta.
  change (negb ((bfType (header_of (66 :: 77 :: rest))).1 =? 66)
          || negb ((bfType (header_of (66 :: 77 :: rest))).2 =? 77))
    with false.
  cbv iota. eexists. split; [reflexivity|].
  apply length_fread, length_memory.
Qed.

Lemma truncated_file_is_loaded_witness :
  exists imageData,
    loadBMP "image.bmp" (Some (66 :: 77 :: replicate 12 0))
      {| stack_header := fun _ => 0;
         stack_info := fun k => nth k (info_bytes (header_24 640 480)) 0;
         heap := fun _ => 0 |}
    = mret (imageData, header_24 640 480).
Proof.
  destruct (truncated_file_is_loaded "image.bmp" (replicate 12 0)
              (header_24 640 480)
              {| stack_header := fun _ => 0;
                 stack_info :=
                   fun k => nth k (info_bytes (header_24 640 480)) 0;
                 heap := fun _ => 0 |})
    as (imageData & Hl & _).
  - reflexivity.
  - unfold in_range, fits_int.
    repeat split; vm_compute; first [reflexivity | discriminate].
  - intros k Hk. cbn [stack_info].
    do 40 (destruct k as [|k]; [reflexivity|]). lia.
  - exists imageData. exact Hl.
Defined.

(** The runs of the BMP program are stated over what [loadBMP] returns
    of a file; this is what it returns of the bytes. *)
Lemma loadBMP_abstraction (filename : string) (file : option (list Z))
    (m : indeterminate) :
  ('(imageData, i) ← loadBMP filename file m;
   mret (imageData, used_by_main i))
  = Host.loadBMP filename ((fun bytes => view bytes m) <$> file).
Proof.
  destruct file as [bytes|]; [|reflexivity].
  unfold loadBMP, Host.loadBMP, view. cbn [fmap option_fmap option_map].
  cbv zeta. cbn [Host.bfType Host.info Host.pixel_array].
  destruct (negb ((bfType (header_of
              (fread (memory (stack_header m) sizeof_BMPHeader)
                     sizeof_BMPHeader bytes))).1 =? 66)
            || negb ((bfType (header_of
                 (fread (memory (stack_header m) sizeof_BMPHeader)
                        sizeof_BMPHeader bytes))).2 =? 77));
    reflexivity.
Qed.

End BmpFileFacts.
